(** * Timeline placement and interaction engine

    A shallow embedding of the pure and event-driven logic of
    [src/components/Timeline/timeline-grid.jsx], of the ruler of
    [TimelineRuler] and of the probe of [utils/videoMetadata]:

    - [Compat]: [areTypesCompatible] and the kind inferred during a file drag;
    - [Ruler]: the [rulerMarkers] generator;
    - [Num]: numbers that may be [NaN] or [Infinity];
    - [Probe]: [getAudioDurationSeconds] and [getVideoMetadataFromUrl] as
      promise machines driven by the events of the media element;
    - [Drop]: the audio and video branches of [handleDrop];
    - [Ghost]: the ghost state and the global pointer handlers.

    JavaScript numbers are idealised as rationals ([Q]); the two special
    values the code tests for, [NaN] and [Infinity], are kept where a
    duration can carry them. The properties follow the definitions. *)

From Stdlib Require Import Bool List Ascii String ZArith QArith Qround Lia Lqa.
From Stdlib Require DecimalString.
Import ListNotations.

Local Open Scope string_scope.

(** ** Track compatibility rules *)

Module Compat.

(** [Array.prototype.includes] on an array of strings. *)
Fixpoint includes (xs : list string) (x : string) : bool :=
  match xs with
  | [] => false
  | y :: ys => String.eqb y x || includes ys x
  end.

Definition videoTypes : list string := ["video"].
Definition audioTypes : list string := ["audio"].
Definition imageTypes : list string := ["imageUrl"; "image"].

(** [areTypesCompatible], statement by statement. *)
Definition areTypesCompatible (type1 type2 : string) : bool :=
  if String.eqb type1 "text" || String.eqb type2 "text"
  then String.eqb type1 "text" && String.eqb type2 "text"
  else if String.eqb type1 "animation" || String.eqb type2 "animation"
  then true
  else
    let v1 := includes videoTypes type1 in
    let v2 := includes videoTypes type2 in
    let a1 := includes audioTypes type1 in
    let a2 := includes audioTypes type2 in
    let i1 := includes imageTypes type1 in
    let i2 := includes imageTypes type2 in
    if v1 && (a2 || i2) then false
    else if v2 && (a1 || i1) then false
    else if a1 && (v2 || i2) then false
    else if a2 && (v1 || i1) then false
    else if i1 && (v2 || a2) then false
    else if i2 && (v1 || a1) then false
    else i1 && i2.

(** The kind set of the timeline; [image] has two spellings. *)
Definition kinds : list string :=
  ["video"; "audio"; "image"; "imageUrl"; "text"; "animation"].

(** The kinds a media row can hold besides animation. *)
Definition mediaKinds : list string :=
  ["video"; "audio"; "image"; "imageUrl"; "text"].

Definition imageFamily (k : string) : Prop := k = "image" \/ k = "imageUrl".

(** A JavaScript value as far as the drag handler produces one for
    [isIncompatible]: [rowType && !areTypesCompatible(..)] is [undefined]
    on an empty row, the row type itself when that is the empty string,
    and a boolean otherwise. *)
Inductive jsval : Type :=
| JUndefined
| JString (s : string)
| JBool (b : bool).

Definition truthy (v : jsval) : bool :=
  match v with
  | JUndefined => false
  | JString s => negb (String.eqb s "")
  | JBool b => b
  end.

(** [fileType?.startsWith(p)]: [undefined] when the type is [undefined],
    which the [if] reads as false. *)
Definition startsWith (fileType : option string) (p : string) : bool :=
  match fileType with
  | None => false
  | Some s => String.prefix p s
  end.

(** The kind inferred for the dragged file in [handleGlobalDragOver]. *)
Definition targetElementType (fileType : option string) : string :=
  if startsWith fileType "audio/" then "audio"
  else if startsWith fileType "video/" then "video"
  else "imageUrl".

(** An overlay as the handler reads it: its row and its type. *)
Record overlay : Type := mkOverlay { row : Z; type : string }.

(** [overlays.filter(o => o.row === targetRow)[0]?.type]. *)
Definition rowType (overlays : list overlay) (targetRow : Z) : option string :=
  option_map type (hd_error (filter (fun o => Z.eqb (row o) targetRow) overlays)).

(** [rowType && !areTypesCompatible(rowType, targetElementType)]. *)
Definition isIncompatible (overlays : list overlay) (targetRow : Z)
           (fileType : option string) : jsval :=
  match rowType overlays targetRow with
  | None => JUndefined
  | Some rt =>
      if String.eqb rt "" then JString rt
      else JBool (negb (areTypesCompatible rt (targetElementType fileType)))
  end.

End Compat.

(** ** Ruler marker generator *)

Module Ruler.

Local Open Scope Q_scope.

Record RulerMarker : Type := mkMarker {
  time : Q;
  timeMs : Q;
  position : Q;
  frame : option Z;
  isMajor : bool;
  isMinor : bool;
  isFrame : bool
}.

(** [x > y] on numbers. *)
Definition gt (x y : Q) : bool := negb (Qle_bool x y).

(** [Math.max]. *)
Definition max (x y : Q) : Q := if Qle_bool x y then y else x.

(** [x % y]: the remainder of the division truncated towards zero, with the
    sign of [x]. The generator only divides by [fps], [fps / 3] and five
    times a positive interval, none of which is zero. *)
Definition trunc (x : Q) : Z := Z.quot (Qnum x) (Zpos (Qden x)).
Definition rem (x y : Q) : Q := x - y * inject_Z (trunc (x / y)).

(** [!x] for a store field that may be unset: [undefined] and [0] are falsy. *)
Definition falsy (x : option Q) : bool :=
  match x with
  | None => true
  | Some q => Qeq_bool q 0
  end.

(** [x || d]. *)
Definition orDefault (x : option Q) (d : Q) : Q :=
  match x with
  | None => d
  | Some q => if Qeq_bool q 0 then d else q
  end.

(** The interval chosen for a zoom level:
    [(intervalSeconds, showFrames, frameInterval)]. *)
Definition chooseInterval (frameDuration scale : Q) : Q * bool * Z :=
  if gt scale 30 then (frameDuration, true, 1%Z)
  else if gt scale 20 then (max (frameDuration * 5) (1 # 10), true, 5%Z)
  else if gt scale 15 then (max (frameDuration * 10) (2 # 10), true, 10%Z)
  else if gt scale 10 then (1, false, 1%Z)
  else if gt scale 5 then (5, false, 1%Z)
  else if gt scale 2 then (10, false, 1%Z)
  else if gt scale 1 then (30, false, 1%Z)
  else (60, false, 1%Z).

Definition frameMarker (maxTime fps frameDuration : Q) (f : Z) : RulerMarker :=
  let timeSeconds := inject_Z f * frameDuration in
  let tMs := timeSeconds * 1000 in
  {| time := timeSeconds;
     timeMs := tMs;
     position := (tMs / maxTime) * 100;
     frame := Some f;
     isMajor := Qeq_bool (rem (inject_Z f) fps) 0;
     isMinor := Qeq_bool (rem (inject_Z f) (fps / 3)) 0;
     isFrame := true |}.

Definition timeMarker (maxTime intervalSeconds t : Q) : RulerMarker :=
  let tMs := t * 1000 in
  let major := Qeq_bool (rem t (intervalSeconds * 5)) 0 in
  {| time := t;
     timeMs := tMs;
     position := (tMs / maxTime) * 100;
     frame := None;
     isMajor := major;
     isMinor := negb major;
     isFrame := false |}.

(** [for (let frame = 0; frame <= maxFrames; frame += frameInterval)];
    [None] when the fuel runs out before the loop condition fails. *)
Fixpoint frameLoop (fuel : nat) (maxTime fps frameDuration : Q)
         (maxFrames frameInterval f : Z) : option (list RulerMarker) :=
  match fuel with
  | O => None
  | S fuel' =>
      if (f <=? maxFrames)%Z
      then option_map (cons (frameMarker maxTime fps frameDuration f))
             (frameLoop fuel' maxTime fps frameDuration maxFrames frameInterval
                (f + frameInterval)%Z)
      else Some []
  end.

(** [for (let time = 0; time <= maxTimeSeconds; time += intervalSeconds)]. *)
Fixpoint timeLoop (fuel : nat) (maxTime maxTimeSeconds intervalSeconds t : Q)
  : option (list RulerMarker) :=
  match fuel with
  | O => None
  | S fuel' =>
      if Qle_bool t maxTimeSeconds
      then option_map (cons (timeMarker maxTime intervalSeconds t))
             (timeLoop fuel' maxTime maxTimeSeconds intervalSeconds
                (t + intervalSeconds))
      else Some []
  end.

(** Iterations the loops can take, plus the failing test. *)
Definition frameFuel (maxFrames : Z) : nat := S (S (Z.to_nat maxFrames)).
Definition timeFuel (maxTimeSeconds intervalSeconds : Q) : nat :=
  S (S (Z.to_nat (Qfloor (maxTimeSeconds / intervalSeconds)))).

(** The body of the [useMemo] of [TimelineRuler]; [maxTime] and [fps] are
    the store fields, [scale] the zoom. In the frame branch the source
    rounds [maxTimeSeconds * fps] and [frame * frameDuration] to doubles;
    here they are exact, and the two agree where those products are. *)
Definition rulerMarkers (maxTime fps : option Q) (scale : Q)
  : option (list RulerMarker) :=
  if falsy maxTime then Some []
  else
    let maxT := orDefault maxTime 0 in
    let maxTimeSeconds := maxT / 1000 in
    let fpsv := orDefault fps 30 in
    let frameDuration := 1 / fpsv in
    let '(intervalSeconds, showFrames, frameInterval) :=
      chooseInterval frameDuration scale in
    if showFrames
    then
      let maxFrames := Qceiling (maxTimeSeconds * fpsv) in
      frameLoop (frameFuel maxFrames) maxT fpsv frameDuration
        maxFrames frameInterval 0%Z
    else
      timeLoop (timeFuel maxTimeSeconds intervalSeconds) maxT
        maxTimeSeconds intervalSeconds 0.

(** What the ruler shows of a marker: its time in seconds and its position
    in percent, both in lowest terms. *)
Definition view (m : RulerMarker) : Q * Q := (Qred (time m), Qred (position m)).

End Ruler.


(** ** Numbers that may be [NaN] or [Infinity]

    [HTMLMediaElement.duration] is [NaN] until the metadata is known, a
    non-negative number afterwards, and [Infinity] for an unbounded stream. *)

Module Num.

Local Open Scope Q_scope.

Inductive num : Type :=
| NaN
| Fin (q : Q)
| Inf.

(** Truthiness: [NaN] and [0] are falsy. *)
Definition truthy (n : num) : bool :=
  match n with
  | NaN => false
  | Fin q => negb (Qeq_bool q 0)
  | Inf => true
  end.

(** [n > 0]. *)
Definition gt0 (n : num) : bool :=
  match n with
  | NaN => false
  | Fin q => negb (Qle_bool q 0)
  | Inf => true
  end.

(** [n <= 0]. *)
Definition le0 (n : num) : bool :=
  match n with
  | NaN => false
  | Fin q => Qle_bool q 0
  | Inf => false
  end.

(** [n * 1000]. *)
Definition mul1000 (n : num) : num :=
  match n with
  | NaN => NaN
  | Fin q => Fin (q * 1000)
  | Inf => Inf
  end.

(** [Math.max(1000, n)]. *)
Definition max1000 (n : num) : num :=
  match n with
  | NaN => NaN
  | Fin q => Fin (if Qle_bool 1000 q then q else 1000)
  | Inf => Inf
  end.

(** [n || 0]. *)
Definition orZero (n : num) : num := if truthy n then n else Fin 0.

(** [1000 <= n], the lower clamp of a probed audio duration. *)
Definition atLeast1000 (n : num) : Prop :=
  match n with
  | NaN => False
  | Fin q => 1000 <= q
  | Inf => True
  end.

End Num.

(** ** Promises and the two media probes *)

Module Probe.

Import Num.

(** The state of a promise; the first settlement wins. *)
Inductive outcome (A : Type) : Type :=
| Pending
| Resolved (a : A)
| Rejected (reason : string).

Arguments Pending {A}.
Arguments Resolved {A} a.
Arguments Rejected {A} reason.

Definition settle {A : Type} (p q : outcome A) : outcome A :=
  match p with
  | Pending => q
  | _ => p
  end.

(** *** [getAudioDurationSeconds] *)

(** What the environment can deliver to the [Audio] element: the
    [loadedmetadata] and [error] events, and the expiry of the one timer the
    probe sets; each carries [audio.duration] as it is read at that moment.
    An expiry with no timer pending does nothing. *)
Inductive audioEvent : Type :=
| AudioLoaded (duration : num)
| AudioError
| AudioTimeout (duration : num).

(** The promise of the probe and the delays of its pending timers. *)
Record audioState : Type := mkAudioState {
  a_promise : outcome num;
  a_timers : list Q
}.

(** The executor: handlers set, one timer of 5000 ms started. *)
Definition audioStart : audioState :=
  {| a_promise := Pending; a_timers := [5000%Q] |}.

Definition audioStep (st : audioState) (e : audioEvent) : audioState :=
  match e with
  | AudioLoaded d =>
      {| a_promise := settle (a_promise st) (Resolved (orZero d));
         a_timers := a_timers st |}
  | AudioError =>
      {| a_promise := settle (a_promise st) (Rejected "Audio file upload error");
         a_timers := a_timers st |}
  | AudioTimeout d =>
      match a_timers st with
      | [] => st
      | _ :: ts =>
          {| a_promise :=
               if negb (truthy d)
               then settle (a_promise st)
                      (Rejected "Audio duration determination timeout")
               else a_promise st;
             a_timers := ts |}
      end
  end.

Definition audioRunFrom (st : audioState) (trace : list audioEvent) : audioState :=
  fold_left audioStep trace st.

Definition getAudioDurationSeconds (trace : list audioEvent) : outcome num :=
  a_promise (audioRunFrom audioStart trace).

(** *** [getVideoMetadataFromUrl] *)

Record meta : Type := mkMeta { durationMs : num; hasAudio : bool }.

(** The conservative default of every failure path. *)
Definition fallback : meta := {| durationMs := Fin 10000; hasAudio := false |}.

(** The properties of the [video] element the probe reads.
    [webkitAudioDecodedByteCount] is [None] when its [typeof] is not
    ['number'], [audioTracks] is [None] when the list is missing and its
    length otherwise. *)
Record video : Type := mkVideo {
  duration : num;
  mozHasAudio : bool;
  webkitAudioDecodedByteCount : option num;
  audioTracks : option nat;
  readyState : nat
}.

(** The callbacks the probe hands to [setTimeout]. *)
Inductive callback : Type :=
| CbTimeout        (* the bounded wait, [timeoutMs] *)
| CbWaitDuration   (* 100 ms retry when the duration is not yet valid *)
| CbRecheck.       (* 200 / 300 ms second look at the audio signals *)

Definition callback_eqb (a b : callback) : bool :=
  match a, b with
  | CbTimeout, CbTimeout => true
  | CbWaitDuration, CbWaitDuration => true
  | CbRecheck, CbRecheck => true
  | _, _ => false
  end.

(** The closure of one probe: the [resolved] flag, the promise, the three
    listeners (all registered with [once: true]) and the pending timers with
    their delays. The timer of [cleanup] that detaches the element from the
    document touches none of these and is left out. *)
Record state : Type := mkState {
  resolved : bool;
  promise : outcome meta;
  onLoadedListener : bool;
  onCanPlayThroughListener : bool;
  onErrorListener : bool;
  timers : list (callback * Q)
}.

Inductive event : Type :=
| LoadedMetadata (v : video)
| CanPlayThrough (v : video)
| MediaError
| Fire (cb : callback) (v : video).

Definition pending (cb : callback) (st : state) : bool :=
  existsb (fun t => callback_eqb (fst t) cb) (timers st).

Fixpoint removeTimer (cb : callback) (ts : list (callback * Q))
  : list (callback * Q) :=
  match ts with
  | [] => []
  | t :: ts' => if callback_eqb (fst t) cb then ts' else t :: removeTimer cb ts'
  end.

Definition setTimeout (cb : callback) (ms : Q) (st : state) : state :=
  {| resolved := resolved st; promise := promise st;
     onLoadedListener := onLoadedListener st;
     onCanPlayThroughListener := onCanPlayThroughListener st;
     onErrorListener := onErrorListener st;
     timers := timers st ++ [(cb, ms)] |}.

(** [clearTimeout(timeoutId)]. *)
Definition clearTimeout (st : state) : state :=
  {| resolved := resolved st; promise := promise st;
     onLoadedListener := onLoadedListener st;
     onCanPlayThroughListener := onCanPlayThroughListener st;
     onErrorListener := onErrorListener st;
     timers := removeTimer CbTimeout (timers st) |}.

Definition cleanup (st : state) : state :=
  if resolved st then st
  else {| resolved := true; promise := promise st;
          onLoadedListener := false;
          onCanPlayThroughListener := false;
          onErrorListener := false;
          timers := timers st |}.

Definition resolve (m : meta) (st : state) : state :=
  {| resolved := resolved st; promise := settle (promise st) (Resolved m);
     onLoadedListener := onLoadedListener st;
     onCanPlayThroughListener := onCanPlayThroughListener st;
     onErrorListener := onErrorListener st;
     timers := timers st |}.

(** The three first signals of [detectAudioAndResolve]. *)
Definition webkitHasAudio (v : video) : bool :=
  match webkitAudioDecodedByteCount v with
  | Some n => gt0 n
  | None => false
  end.

Definition hasAudioTracks (v : video) : bool :=
  match audioTracks v with
  | Some n => Nat.ltb 0 n
  | None => false
  end.

(** The fourth one, taken once [readyState >= 2]. *)
Definition audioContextCheck (v : video) : bool :=
  if Nat.leb 2 (readyState v)
  then hasAudioTracks v || (mozHasAudio v || webkitHasAudio v)
  else false.

Definition detectAudioAndResolve (v : video) (st : state) : state :=
  if resolved st then st
  else
    let durationSec := orZero (duration v) in
    let detectedAudio :=
      mozHasAudio v || webkitHasAudio v || hasAudioTracks v
      || audioContextCheck v in
    let detectedAudio :=
      if negb detectedAudio && gt0 durationSec then true else detectedAudio in
    resolve {| durationMs := if gt0 durationSec then mul1000 durationSec
                             else Fin 10000;
               hasAudio := detectedAudio |}
      (cleanup (clearTimeout st)).

(** [url.startsWith('blob:')]. *)
Definition isBlob (url : string) : bool := String.prefix "blob:" url.

Definition onLoaded (url : string) (v : video) (st : state) : state :=
  if resolved st then st
  else if negb (truthy (duration v)) || le0 (duration v)
  then setTimeout CbWaitDuration 100 st
  else if isBlob url
  then setTimeout CbRecheck 300 (detectAudioAndResolve v st)
  else setTimeout CbRecheck 200 (detectAudioAndResolve v st).

Definition onCanPlayThrough (url : string) (v : video) (st : state) : state :=
  if negb (resolved st) && Nat.leb 2 (readyState v)
  then onLoaded url v st
  else st.

Definition onError (st : state) : state :=
  if resolved st then st
  else resolve fallback (cleanup (clearTimeout st)).

(** The callback of the bounded wait. *)
Definition onTimeout (st : state) : state :=
  if negb (resolved st) then resolve fallback (cleanup st) else st.

(** The 100 ms retry of [onLoaded]. *)
Definition onWaitDuration (v : video) (st : state) : state :=
  if negb (resolved st) && gt0 (duration v)
  then detectAudioAndResolve v st
  else st.

(** The 200 / 300 ms second look of [onLoaded]. *)
Definition onRecheck (v : video) (st : state) : state :=
  if negb (resolved st) && Nat.leb 2 (readyState v)
  then detectAudioAndResolve v st
  else st.

(** A listener registered with [once: true] is detached as it is called. *)
Definition detachLoaded (st : state) : state :=
  {| resolved := resolved st; promise := promise st;
     onLoadedListener := false;
     onCanPlayThroughListener := onCanPlayThroughListener st;
     onErrorListener := onErrorListener st;
     timers := timers st |}.

Definition detachCanPlayThrough (st : state) : state :=
  {| resolved := resolved st; promise := promise st;
     onLoadedListener := onLoadedListener st;
     onCanPlayThroughListener := false;
     onErrorListener := onErrorListener st;
     timers := timers st |}.

Definition detachError (st : state) : state :=
  {| resolved := resolved st; promise := promise st;
     onLoadedListener := onLoadedListener st;
     onCanPlayThroughListener := onCanPlayThroughListener st;
     onErrorListener := false;
     timers := timers st |}.

Definition expire (cb : callback) (st : state) : state :=
  {| resolved := resolved st; promise := promise st;
     onLoadedListener := onLoadedListener st;
     onCanPlayThroughListener := onCanPlayThroughListener st;
     onErrorListener := onErrorListener st;
     timers := removeTimer cb (timers st) |}.

(** One turn of the event loop: an event with no listener, or a timer that
    is not pending, does nothing. *)
Definition step (url : string) (st : state) (e : event) : state :=
  match e with
  | LoadedMetadata v =>
      if onLoadedListener st then onLoaded url v (detachLoaded st) else st
  | CanPlayThrough v =>
      if onCanPlayThroughListener st
      then onCanPlayThrough url v (detachCanPlayThrough st)
      else st
  | MediaError =>
      if onErrorListener st then onError (detachError st) else st
  | Fire cb v =>
      if pending cb st
      then match cb with
           | CbTimeout => onTimeout (expire cb st)
           | CbWaitDuration => onWaitDuration v (expire cb st)
           | CbRecheck => onRecheck v (expire cb st)
           end
      else st
  end.

(** [!url]: unset or empty. *)
Definition unset (url : option string) : bool :=
  match url with
  | None => true
  | Some s => String.eqb s ""
  end.

Definition urlOf (url : option string) : string :=
  match url with
  | None => ""
  | Some s => s
  end.

(** The executor up to its last statement. [srcThrows] says whether setting
    [video.src] and calling [video.load()] raise; [timeoutMs] is [None] when
    the caller leaves the default. *)
Definition start (url : option string) (timeoutMs : option Q)
           (srcThrows : bool) : state :=
  if unset url
  then {| resolved := false; promise := Resolved fallback;
          onLoadedListener := false; onCanPlayThroughListener := false;
          onErrorListener := false; timers := [] |}
  else
    let ms := match timeoutMs with Some t => t | None => 10000%Q end in
    let st := {| resolved := false; promise := Pending;
                 onLoadedListener := true; onCanPlayThroughListener := true;
                 onErrorListener := true; timers := [(CbTimeout, ms)] |} in
    if srcThrows then resolve fallback (cleanup (clearTimeout st)) else st.

(** The promise after the environment has delivered [trace]. *)
Definition run (url : option string) (timeoutMs : option Q)
           (srcThrows : bool) (trace : list event) : state :=
  fold_left (step (urlOf url)) trace (start url timeoutMs srcThrows).

Definition getVideoMetadataFromUrl (url : option string) (timeoutMs : option Q)
           (srcThrows : bool) (trace : list event) : outcome meta :=
  promise (run url timeoutMs srcThrows trace).

(** A video on which no audio signal is positive. *)
Definition noAudioSignal (v : video) : Prop :=
  mozHasAudio v = false /\ webkitHasAudio v = false /\ hasAudioTracks v = false.

(** The events after which the probe looks at the element [v]:
    [loadedmetadata] while its listener is attached, [canplaythrough] with
    enough data, and the 100 ms retry. *)
Definition looksAt (st : state) (e : event) (v : video) : Prop :=
  (e = LoadedMetadata v /\ onLoadedListener st = true)
  \/ (e = CanPlayThrough v /\ onCanPlayThroughListener st = true
      /\ (2 <= readyState v)%nat)
  \/ (e = Fire CbWaitDuration v /\ pending CbWaitDuration st = true).

(** The events of the failure paths. *)
Definition isFailure (e : event) : Prop :=
  e = MediaError \/ exists v, e = Fire CbTimeout v.

(** The promise as it stands after [trace], from any state of the closure. *)
Definition runFrom (url : string) (st : state) (trace : list event) : state :=
  fold_left (step url) trace st.

(** While the promise is pending the probe can still hear a failure: the
    [resolved] flag is down, the error listener is attached and the bounded
    wait is running. *)
Definition armed (st : state) : Prop :=
  promise st = Pending ->
  resolved st = false /\ onErrorListener st = true
  /\ pending CbTimeout st = true.

End Probe.

(** ** The audio and video branches of [handleDrop] *)

Module Drop.

Import Num Probe.

(** What the branches read from the store, as the values the store returns
    at those reads: the track count and the getters of the dedicated rows
    and of the last end times. *)
Record storeView : Type := mkStoreView {
  maxRows : Z;
  getDedicatedVideoTrackRow : Z;
  getDedicatedAudioTrackRow : Z;
  getLastVideoEndTime : num;
  getLastAudioEndTime : num
}.

(** The argument of [store.handleVideoUploadFromUrl]. *)
Record videoArgs : Type := mkVideoArgs {
  v_url : string;
  v_title : string;
  v_key : option string;
  v_duration : num;
  v_row : Z;
  v_startTime : num;
  v_isNeedLoader : bool;
  v_hasSeparateAudio : bool
}.

(** The argument of [store.addExistingAudio], without its random [id]. *)
Record audioArgs : Type := mkAudioArgs {
  a_base64Audio : string;
  a_durationMs : num;
  a_row : Z;
  a_startTime : num;
  a_audioType : string;
  a_duration : num;
  a_name : string
}.

(** The overlay creations a branch asks of the store, in order. *)
Inductive call : Type :=
| HandleVideoUploadFromUrl (args : videoArgs)
| AddExistingAudio (args : audioArgs).

Inductive toast : Type :=
| Success (message : string)
| Error (message : string).

Record placed : Type := mkPlaced {
  maxRowsAfter : Z;
  calls : list call;
  toasts : list toast
}.

(** The file and what the upload returned for it. [r_duration] is [Some]
    exactly when [typeof uploadResult?.duration === 'number']. *)
Record upload : Type := mkUpload {
  f_name : string;
  r_url : string;
  r_key : option string;
  r_duration : option num
}.

(** [if (row >= store.maxRows) store.maxRows = row + 1]. *)
Definition grow (row rows : Z) : Z := if (row >=? rows)%Z then (row + 1)%Z else rows.

(** The duration of a dropped audio file; [None] while the probe is awaited
    and has not settled. *)
Definition audioDurationMs (u : upload) (trace : list audioEvent) : option num :=
  match r_duration u with
  | Some d => Some (mul1000 d)
  | None =>
      match getAudioDurationSeconds trace with
      | Resolved durationSec => Some (max1000 (mul1000 durationSec))
      | Rejected _ => Some (Fin 5000)
      | Pending => None
      end
  end.

(** The branch [uploadType === 'audio']. [callThrows] says whether
    [store.addExistingAudio] raises, which the [catch] around the file
    reports. *)
Definition audioBranch (s : storeView) (u : upload) (trace : list audioEvent)
           (callThrows : bool) : option placed :=
  match audioDurationMs u trace with
  | None => None
  | Some durationMs =>
      let audioRow := getDedicatedAudioTrackRow s in
      let rows := grow audioRow (maxRows s) in
      let startTime := getLastAudioEndTime s in
      let c := AddExistingAudio
                 {| a_base64Audio := r_url u; a_durationMs := durationMs;
                    a_row := audioRow; a_startTime := startTime;
                    a_audioType := "music"; a_duration := durationMs;
                    a_name := f_name u |} in
      Some {| maxRowsAfter := rows; calls := [c];
              toasts := if callThrows
                        then [Error ("Failed to upload " ++ f_name u)]
                        else [Success ("Added " ++ f_name u ++ " to timeline")] |}
  end.

(** The metadata the video branch works with: the probe's answer, or the
    fallback of its [catch]. [None] while the probe has not settled. *)
Definition videoMetadata (u : upload) (probe : outcome meta)
  : option (num * bool) :=
  match probe with
  | Pending => None
  | Resolved m => Some (durationMs m, hasAudio m)
  | Rejected _ =>
      Some (match r_duration u with
            | Some d => mul1000 d
            | None => Fin 10000
            end, false)
  end.

(** The row of the companion audio:
    [if (audioRow === videoRow && hasAudio) audioRow = Math.max(videoRow + 1, store.maxRows)]. *)
Definition companionRow (s : storeView) (hasAudio : bool) : Z :=
  let videoRow := getDedicatedVideoTrackRow s in
  let audioRow := getDedicatedAudioTrackRow s in
  if (audioRow =? videoRow)%Z && hasAudio
  then Z.max (videoRow + 1) (maxRows s)
  else audioRow.

(** The track count after the two growth statements. *)
Definition videoRowsAfter (s : storeView) (hasAudio : bool) : Z :=
  let videoRow := getDedicatedVideoTrackRow s in
  let audioRow := companionRow s hasAudio in
  let rows := grow videoRow (maxRows s) in
  if hasAudio then grow audioRow rows else rows.

(** The branch [uploadType === 'video']. [videoThrows] and [audioThrows]
    say whether the two store calls raise. *)
Definition videoBranch (s : storeView) (u : upload) (probe : outcome meta)
           (videoThrows audioThrows : bool) : option placed :=
  match videoMetadata u probe with
  | None => None
  | Some (durationMs, hasAudio) =>
      let videoRow := getDedicatedVideoTrackRow s in
      let audioRow := companionRow s hasAudio in
      let rows := videoRowsAfter s hasAudio in
      let alignedStartTime := getLastVideoEndTime s in
      let vc := HandleVideoUploadFromUrl
                  {| v_url := r_url u; v_title := f_name u; v_key := r_key u;
                     v_duration := durationMs; v_row := videoRow;
                     v_startTime := alignedStartTime; v_isNeedLoader := false;
                     v_hasSeparateAudio := hasAudio |} in
      if videoThrows
      then Some {| maxRowsAfter := rows; calls := [vc];
                   toasts := [Error ("Failed to upload " ++ f_name u)] |}
      else if hasAudio
      then
        let ac := AddExistingAudio
                    {| a_base64Audio := r_url u; a_durationMs := durationMs;
                       a_row := audioRow; a_startTime := alignedStartTime;
                       a_audioType := "music"; a_duration := durationMs;
                       a_name := f_name u |} in
        Some {| maxRowsAfter := rows; calls := [vc; ac];
                toasts :=
                  (if audioThrows
                   then [Error ("Video added but audio extraction failed for "
                                  ++ f_name u)]
                   else [])
                  ++ [Success ("Added video and audio from " ++ f_name u
                                 ++ " to timeline (aligned, separate tracks)")] |}
      else Some {| maxRowsAfter := rows; calls := [vc];
                   toasts := [Success ("Added video " ++ f_name u
                                         ++ " to timeline")] |}
  end.

(** The video and audio requests among the calls of a branch. *)
Definition videoCalls (cs : list call) : list videoArgs :=
  flat_map (fun c => match c with HandleVideoUploadFromUrl a => [a] | _ => [] end) cs.

Definition audioCalls (cs : list call) : list audioArgs :=
  flat_map (fun c => match c with AddExistingAudio a => [a] | _ => [] end) cs.

End Drop.

(** ** Ghost interaction state and the global pointer handlers *)

Module Ghost.

Local Open Scope Q_scope.

(** A ghost payload: the geometry the renderer reads, and the two flags
    some payloads carry. *)
Record GhostElement : Type := mkGhostElement {
  left : Q;
  width : Q;
  row : Z;
  elementType : string;
  canPush : bool;
  isIncompatible : bool
}.

Record AlignmentLine : Type := mkAlignmentLine {
  linePosition : Q;
  lineType : string;
  snapGuide : bool
}.

Record GhostState : Type := mkGhostState {
  isDragging : bool;
  ghostElement : option GhostElement;
  isIncompatibleRow : bool;
  isResizing : bool;
  resizeGhostElement : option GhostElement;
  isMultiDragging : bool;
  multiGhostElements : list GhostElement;
  isGalleryDragging : bool;
  galleryGhostElement : option GhostElement;
  isFileDragging : bool;
  fileGhostElement : option GhostElement;
  alignmentLines : list AlignmentLine;
  ghostMarkerPosition : option Q
}.

(** Modelled from the spec: [store.resetGhostState] is a method of the
    project store, which is not part of these sources. The spec has the
    full reset clear the state: all flags false, all ghost objects null,
    lists emptied, alignment lines cleared. *)
Definition resetGhostState (g : GhostState) : GhostState :=
  {| isDragging := false; ghostElement := None; isIncompatibleRow := false;
     isResizing := false; resizeGhostElement := None;
     isMultiDragging := false; multiGhostElements := [];
     isGalleryDragging := false; galleryGhostElement := None;
     isFileDragging := false; fileGhostElement := None;
     alignmentLines := []; ghostMarkerPosition := None |}.

(** [store.ghostState.ghostElement = null]. *)
Definition clearGhostElement (g : GhostState) : GhostState :=
  {| isDragging := isDragging g; ghostElement := None;
     isIncompatibleRow := isIncompatibleRow g;
     isResizing := isResizing g; resizeGhostElement := resizeGhostElement g;
     isMultiDragging := isMultiDragging g;
     multiGhostElements := multiGhostElements g;
     isGalleryDragging := isGalleryDragging g;
     galleryGhostElement := galleryGhostElement g;
     isFileDragging := isFileDragging g;
     fileGhostElement := fileGhostElement g;
     alignmentLines := alignmentLines g;
     ghostMarkerPosition := ghostMarkerPosition g |}.

(** [store.ghostState.multiGhostElements = []]. *)
Definition clearMultiGhostElements (g : GhostState) : GhostState :=
  {| isDragging := isDragging g; ghostElement := ghostElement g;
     isIncompatibleRow := isIncompatibleRow g;
     isResizing := isResizing g; resizeGhostElement := resizeGhostElement g;
     isMultiDragging := isMultiDragging g;
     multiGhostElements := [];
     isGalleryDragging := isGalleryDragging g;
     galleryGhostElement := galleryGhostElement g;
     isFileDragging := isFileDragging g;
     fileGhostElement := fileGhostElement g;
     alignmentLines := alignmentLines g;
     ghostMarkerPosition := ghostMarkerPosition g |}.

(** A bounding rectangle. *)
Record Rect : Type := mkRect { r_left : Q; r_right : Q; r_top : Q; r_bottom : Q }.

(** What the handlers read of a pointer or drag event. [hasFiles] is
    [dataTransfer?.types.includes('Files')], [overTimelineRow] whether
    [target.closest('[data-testid=timeline-row]')] finds a row, [itemType]
    is [dataTransfer.items?.[0]?.type]. *)
Record PointerEvent : Type := mkPointerEvent {
  clientX : Q;
  clientY : Q;
  hasFiles : bool;
  overTimelineRow : bool;
  itemType : option string
}.

Definition isOverGrid (gridRect : Rect) (e : PointerEvent) : bool :=
  Qle_bool (r_left gridRect) (clientX e)
  && Qle_bool (clientX e) (r_right gridRect)
  && Qle_bool (r_top gridRect) (clientY e)
  && Qle_bool (clientY e) (r_bottom gridRect).

(** The branch both handlers take when the pointer is outside the grid. *)
Definition leaveGrid (g : GhostState) : GhostState :=
  if isFileDragging g || isGalleryDragging g
  then resetGhostState g
  else
    let g1 := if isDragging g then clearGhostElement g else g in
    if isMultiDragging g1 then clearMultiGhostElements g1 else g1.

(** [handleGlobalMouseMove]; [grid] is [gridRef.current] as its bounding
    rectangle, [None] while the grid is not mounted. *)
Definition handleGlobalMouseMove (grid : option Rect) (e : PointerEvent)
           (g : GhostState) : GhostState :=
  match grid with
  | None => g
  | Some gridRect => if negb (isOverGrid gridRect e) then leaveGrid g else g
  end.

(** The row under the pointer: the index of the first row container whose
    rectangle spans [clientY], and [0] when there is none. *)
Fixpoint targetRowOf (rowContainers : list (Rect * Z)) (y : Q) : Z :=
  match rowContainers with
  | [] => 0%Z
  | (rowRect, index) :: rest =>
      if Qle_bool (r_top rowRect) y && Qle_bool y (r_bottom rowRect)
      then index
      else targetRowOf rest y
  end.

(** The argument list of [store.updateFileGhost]. *)
Record fileGhostUpdate : Type := mkFileGhostUpdate {
  newPosition : Q;
  targetRow : Z;
  incompatible : Compat.jsval
}.

(** [handleGlobalDragOver]: the ghost state it leaves, and the call of
    [store.updateFileGhost] it makes, if any. *)
Definition handleGlobalDragOver (grid : option Rect)
           (rowContainers : list (Rect * Z)) (overlays : list Compat.overlay)
           (maxTime : Q) (e : PointerEvent) (g : GhostState)
  : GhostState * option fileGhostUpdate :=
  match grid with
  | None => (g, None)
  | Some gridRect =>
      if negb (isOverGrid gridRect e) then (leaveGrid g, None)
      else if isFileDragging g && hasFiles e
      then
        if overTimelineRow e then (g, None)
        else
          let mouseX := clientX e - r_left gridRect in
          let pos := (mouseX / (r_right gridRect - r_left gridRect)) * maxTime in
          let tr := targetRowOf rowContainers (clientY e) in
          (g, Some {| newPosition := pos; targetRow := tr;
                      incompatible := Compat.isIncompatible overlays tr (itemType e) |})
      else (g, None)
  end.

(** The same event with another MIME type on the dragged item. *)
Definition withItemType (e : PointerEvent) (t : option string) : PointerEvent :=
  {| clientX := clientX e; clientY := clientY e; hasFiles := hasFiles e;
     overTimelineRow := overTimelineRow e; itemType := t |}.

(** All mode flags down and all payloads empty. *)
Definition cleared (g : GhostState) : Prop :=
  isDragging g = false /\ isResizing g = false /\ isMultiDragging g = false
  /\ isGalleryDragging g = false /\ isFileDragging g = false
  /\ ghostElement g = None /\ resizeGhostElement g = None
  /\ multiGhostElements g = [] /\ galleryGhostElement g = None
  /\ fileGhostElement g = None.

(** The mode flags of two states agree. *)
Definition sameFlags (g g' : GhostState) : Prop :=
  isDragging g' = isDragging g /\ isResizing g' = isResizing g
  /\ isMultiDragging g' = isMultiDragging g
  /\ isGalleryDragging g' = isGalleryDragging g
  /\ isFileDragging g' = isFileDragging g
  /\ isIncompatibleRow g' = isIncompatibleRow g.

(** Everything but [ghostElement] and [multiGhostElements] agrees. *)
Definition sameOtherPayloads (g g' : GhostState) : Prop :=
  resizeGhostElement g' = resizeGhostElement g
  /\ galleryGhostElement g' = galleryGhostElement g
  /\ fileGhostElement g' = fileGhostElement g
  /\ alignmentLines g' = alignmentLines g
  /\ ghostMarkerPosition g' = ghostMarkerPosition g.

End Ghost.

(** ** Dropped files: the filter, the category and the triage of [handleDrop] *)

Module Files.

(** [String.prototype.toLowerCase] on the letters [A] to [Z]; every other
    character is kept. File names and MIME types are read as ASCII. *)
Definition lowerAscii (c : Ascii.ascii) : Ascii.ascii :=
  let n := Ascii.nat_of_ascii c in
  if Nat.leb 65 n && Nat.leb n 90 then Ascii.ascii_of_nat (n + 32) else c.

Fixpoint toLowerCase (s : string) : string :=
  match s with
  | EmptyString => EmptyString
  | String c s' => String (lowerAscii c) (toLowerCase s')
  end.

(** [s.endsWith(suffix)]: [suffix] is one of the tails of [s]. *)
Fixpoint endsWith (suffix s : string) : bool :=
  String.eqb suffix s
  || match s with
     | EmptyString => false
     | String _ s' => endsWith suffix s'
     end.

(** [/\.(e1|e2|...)$/.test(n)]. *)
Definition matchesExt (exts : list string) (n : string) : bool :=
  existsb (fun e => endsWith ("." ++ e) n) exts.

(** What the handlers read of a [File]. *)
Record file : Type := mkFile { type : option string; name : option string }.

(** [x || '']. *)
Definition orEmpty (x : option string) : string :=
  match x with
  | Some s => s
  | None => ""
  end.

(** The alternatives of the three patterns of [inferUploadCategory];
    [jpe?g] is [jpg] or [jpeg]. *)
Definition imageExts : list string :=
  ["png"; "jpg"; "jpeg"; "gif"; "bmp"; "webp"; "svg"].
Definition videoExts : list string :=
  ["mp4"; "avi"; "mov"; "wmv"; "flv"; "webm"; "mkv"; "m4v"].
Definition audioExts : list string :=
  ["mp3"; "wav"; "ogg"; "aac"; "flac"; "aiff"; "m4a"].

(** The alternatives of the pattern of the filter of [handleDrop]. *)
Definition dropExts : list string :=
  ["mp3"; "wav"; "ogg"; "aac"; "m4a"; "flac"; "aiff"; "mp4"; "mov"; "webm";
   "avi"; "mkv"; "m4v"; "wmv"; "png"; "jpg"; "jpeg"; "gif"; "bmp"; "webp";
   "svg"].

Definition inferUploadCategory (f : file) : option string :=
  let ft := toLowerCase (orEmpty (type f)) in
  if String.prefix "image/" ft then Some "image"
  else if String.prefix "video/" ft then Some "video"
  else if String.prefix "audio/" ft then Some "audio"
  else
    let n := toLowerCase (orEmpty (name f)) in
    if matchesExt imageExts n then Some "image"
    else if matchesExt videoExts n then Some "video"
    else if matchesExt audioExts n then Some "audio"
    else None.

(** The test on the MIME type that [handleDragOver] and the filter share. *)
Definition isMediaMime (t : string) : bool :=
  String.prefix "audio/" t || String.prefix "video/" t
  || String.prefix "image/" t.

(** The predicate of [droppedFiles.filter]. *)
Definition isMediaFile (f : file) : bool :=
  let t := toLowerCase (orEmpty (type f)) in
  let n := toLowerCase (orEmpty (name f)) in
  isMediaMime t || matchesExt dropExts n.

(** The first item of a drag: its [kind] and its [type]. *)
Record dragItem : Type := mkDragItem { kind : string; itemType : option string }.

(** [handleDragOver]: the value it passes to [setIsDraggingOver], or [None]
    when it returns before the call; the drop effect is set to [copy]
    exactly when that value is true. *)
Definition handleDragOver (item : option dragItem) : option bool :=
  match item with
  | None => None
  | Some it =>
      if negb (String.eqb (kind it) "file") then None
      else Some (isMediaMime (toLowerCase (orEmpty (itemType it))))
  end.

(** The upload type of the loop of [handleDrop]. [detected] is the answer of
    [detectCategory], which is not part of these sources; an empty answer
    counts as none. *)
Definition category (detected : option string) (f : file) : option string :=
  match detected with
  | Some c => if String.eqb c "" then inferUploadCategory f else Some c
  | None => inferUploadCategory f
  end.

Definition uploadType (detected : option string) (f : file) : option string :=
  let logicalType := toLowerCase (orEmpty (category detected f)) in
  if String.eqb logicalType "" then None
  else if String.eqb logicalType "image" || String.eqb logicalType "animation"
  then Some "image"
  else if String.eqb logicalType "video" then Some "video"
  else if String.eqb logicalType "audio" then Some "audio"
  else None.






End Files.

(** ** What the video probe can answer *)

Module ProbeAnswers.

Import Num Probe.

(** The answers of the probe: the fallback, or a positive duration in
    milliseconds together with [hasAudio = true]. *)
Definition answer (m : meta) : Prop :=
  m = fallback
  \/ (hasAudio m = true
      /\ exists d, gt0 d = true /\ durationMs m = mul1000 d).

(** The second look of [onLoaded] is only ever scheduled behind a detection,
    which has raised the [resolved] flag; and what the promise holds is an
    answer. *)
Definition settledBehindRecheck (st : state) : Prop :=
  (pending CbRecheck st = true -> resolved st = true)
  /\ (forall m, promise st = Resolved m -> answer m).

End ProbeAnswers.

(** ** Ruler labels: [formatTime] and what [TimelineRuler] renders *)

Module RulerLabel.

Import Ruler.
Local Open Scope Q_scope.

(** [n.toString()] for an integer. *)
Definition toString (z : Z) : string :=
  DecimalString.NilZero.string_of_int (Z.to_int z).

(** [s.padStart(2, '0')]. *)
Definition padStart2 (s : string) : string :=
  match String.length s with
  | O => "00"
  | S O => "0" ++ s
  | _ => s
  end.

(** [formatTime(seconds, frame)]; [scale] is the prop of the component, and
    a marker without a frame reaches the function as [null]. *)
Definition formatTime (scale seconds : Q) (frame : option Z) : string :=
  let mins := Qfloor (seconds / 60) in
  let secs := Qfloor (rem seconds 60) in
  let ms := Qfloor (rem seconds 1 * 100) in
  let coarse := toString mins ++ ":" ++ padStart2 (toString secs) in
  let fine := toString mins ++ ":" ++ padStart2 (toString secs) ++ "."
              ++ padStart2 (toString ms) in
  match frame with
  | Some f =>
      if gt scale 15
      then toString mins ++ ":" ++ padStart2 (toString secs) ++ ":"
           ++ padStart2 (toString f)
      else if gt scale 20 then fine
      else coarse
  | None => if gt scale 20 then fine else coarse
  end.

(** The label under a marker, if it has one:
    [(marker.isMajor || (marker.isMinor && scale > 15))]. *)
Definition label (scale : Q) (m : RulerMarker) : option string :=
  if isMajor m || (isMinor m && gt scale 15)
  then Some (formatTime scale (time m) (frame m))
  else None.

End RulerLabel.

(** ** Canvas size: the aspect ratio of a custom size *)

Module Canvas.

Local Open Scope Z_scope.

(** [gcd = (a, b) => (b === 0 ? a : gcd(b, a % b))] on integers; [%] keeps
    the sign of [a]. [None] when the fuel runs out before [b] is [0]. *)
Fixpoint gcdFuel (fuel : nat) (a b : Z) : option Z :=
  match fuel with
  | O => None
  | S fuel' => if b =? 0 then Some a else gcdFuel fuel' b (Z.rem a b)
  end.

(** The second argument shrinks in absolute value at every call. *)
Definition gcd (a b : Z) : option Z := gcdFuel (S (Z.abs_nat b)) a b.

Record size : Type := mkSize { width : Z; height : Z }.

(** [x / d] on numbers; [None] stands for the [NaN] or [Infinity] of a
    division by zero. *)
Definition divide (x d : Z) : option Q :=
  if d =? 0 then None else Some (inject_Z x / inject_Z d)%Q.

(** The argument of [store.updateAspectRatio]. *)
Record aspectRatio : Type := mkAspectRatio {
  aspectWidth : option Q;
  aspectHeight : option Q
}.

(** [handleCustomSizeChange]: the call of [store.updateAspectRatio] it
    makes, if any. [ready] is [store && store.canvas]. The outer [None] is
    the guard failing; [Some None] cannot happen, as [gcd] always returns. *)
Definition handleCustomSizeChange (ready : bool) (sz : size)
  : option (option aspectRatio) :=
  if ready
  then Some (match gcd (width sz) (height sz) with
             | None => None
             | Some divisor =>
                 Some {| aspectWidth := divide (width sz) divisor;
                         aspectHeight := divide (height sz) divisor |}
             end)
  else None.

(** The sizes of the menu. *)
Definition customSizeOptions : list size :=
  [mkSize 1080 1920; mkSize 1920 1080; mkSize 720 1280; mkSize 1280 720].

End Canvas.

(** ** Alignment lines: the tooltip of a guide *)

Module Alignment.

(** [s.replace('-', ' to ')]: the first hyphen only. *)
Fixpoint replaceHyphen (s : string) : string :=
  match s with
  | EmptyString => EmptyString
  | String c s' =>
      if Ascii.eqb c "-"%char then " to " ++ s'
      else String c (replaceHyphen s')
  end.

(** Whether [s] has a hyphen. *)
Fixpoint hasHyphen (s : string) : bool :=
  match s with
  | EmptyString => false
  | String c s' => Ascii.eqb c "-"%char || hasHyphen s'
  end.

(** The [title] of the element of a line. *)
Definition title (line : Ghost.AlignmentLine) : string :=
  if String.eqb (Ghost.lineType line) "" then "Alignment guide"
  else "Snap: " ++ replaceHyphen (Ghost.lineType line).

(** What [AlignmentLines] renders: nothing for a missing or empty list, and
    otherwise one element per line, with its [left] in percent and its
    title. *)
Definition render (alignmentLines : option (list Ghost.AlignmentLine))
  : option (list (Q * string)) :=
  match alignmentLines with
  | None => None
  | Some [] => None
  | Some ls => Some (map (fun l => (Ghost.linePosition l, title l)) ls)
  end.

End Alignment.

(** ** The ghosts [TimelineGrid] renders, and the other global handlers *)

Module GhostRender.

Import Ghost.

(** The props of one [TimelineGhostElement]. *)
Record ghostProps : Type := mkGhostProps {
  p_left : Q;
  p_width : Q;
  p_row : Z;
  p_elementType : string;
  p_isIncompatible : bool
}.

Definition props (incompatible : bool) (g : GhostElement) : ghostProps :=
  {| p_left := left g; p_width := width g; p_row := row g;
     p_elementType := elementType g; p_isIncompatible := incompatible |}.

Definition whenSet (flag : bool) (payload : option GhostElement)
           (incompatible : GhostElement -> bool) : list ghostProps :=
  match payload with
  | Some g => if flag then [props (incompatible g) g] else []
  | None => []
  end.

(** The five groups of ghosts of the JSX, in its order. *)
Definition dragGhosts (s : GhostState) : list ghostProps :=
  whenSet (isDragging s) (ghostElement s) (fun _ => isIncompatibleRow s).

Definition resizeGhosts (s : GhostState) : list ghostProps :=
  whenSet (isResizing s) (resizeGhostElement s) (fun g => negb (canPush g)).

Definition multiGhosts (s : GhostState) : list ghostProps :=
  if isMultiDragging s then map (props false) (multiGhostElements s) else [].

Definition galleryGhosts (s : GhostState) : list ghostProps :=
  whenSet (isGalleryDragging s) (galleryGhostElement s) isIncompatible.

Definition fileGhosts (s : GhostState) : list ghostProps :=
  whenSet (isFileDragging s) (fileGhostElement s) isIncompatible.

Definition renderedGhosts (s : GhostState) : list ghostProps :=
  (dragGhosts s ++ resizeGhosts s ++ multiGhosts s ++ galleryGhosts s
   ++ fileGhosts s)%list.

(** [handleGlobalDragLeave]; [leftDocument] is [!e.relatedTarget]. *)
Definition handleGlobalDragLeave (leftDocument : bool) (s : GhostState)
  : GhostState :=
  if leftDocument
  then if isFileDragging s then resetGhostState s else s
  else s.

Definition handleGlobalDrop (s : GhostState) : GhostState :=
  if isFileDragging s || isGalleryDragging s then resetGhostState s else s.

End GhostRender.

(** ** The upload hook: [useUploadProgress] *)

Module UploadHook.

Local Open Scope Q_scope.

(** What the [catch] reads of the error axios raised. *)
Record error : Type := mkError {
  isCancel : bool;              (* [axios.isCancel(error)] *)
  e_name : option string;
  e_message : option string;
  e_code : option string
}.

Record wrapped : Type := mkWrapped { canceled : bool; cause : error }.

(** The state of the hook: [isUploading], [lastError] and whether
    [controllerRef.current] holds a controller. *)
Record hookState : Type := mkHookState {
  isUploading : bool;
  lastError : option wrapped;
  controller : bool
}.

(** [process.env] and the token of the store. *)
Record env : Type := mkEnv {
  backendUrl : option string;
  nodeEnv : option string;
  token : option string
}.

(** The file of the form data, [formData.get('file') || formData.get('image')],
    with the object URL the browser gives it; [None] when there is none or
    the argument is no [FormData]. *)
Record formFile : Type := mkFormFile {
  objectUrl : string;
  fileName : string;
  fileSize : Z
}.

Record request : Type := mkRequest {
  file : option formFile;
  onProgress : bool;            (* [typeof onProgress === 'function'] *)
  endpoint : option string
}.

(** An upload progress event; [total] is [None] when it is not set. *)
Record progressEvent : Type := mkProgressEvent { loaded : Q; total : option Q }.

(** How the request ends. *)
Inductive network : Type :=
| Responded (data : string)
| Failed (err : error).

Inductive payload : Type :=
| MockEmpty
| MockFile (url name : string) (size : Z)
| ResponseData (data : string).

Inductive result : Type :=
| Returned (data : payload)
| Thrown (w : wrapped).

(** What a call of [upload] leaves behind: the state of the hook, the
    percentages handed to [onProgress] in order, the request posted (its
    url and its [Authorization] header) if one was, and the outcome. *)
Record run : Type := mkRun {
  final : hookState;
  reports : list Z;
  posted : option (string * option string);
  outcome : result
}.

(** [x || ''] and [!x] on an optional string. *)
Definition orEmpty (x : option string) : string :=
  match x with
  | Some s => s
  | None => ""
  end.

Definition present (x : option string) : bool :=
  negb (String.eqb (orEmpty x) "").

(** [Math.round]: halves go up. *)
Definition round (x : Q) : Z := Qfloor (x + (1 # 2)).

(** The body of [onUploadProgress]: the percentage it reports, if any. *)
Definition percentage (reporting : bool) (e : progressEvent) : list Z :=
  match total e with
  | None => []
  | Some t =>
      if Qeq_bool t 0 then []
      else if reporting then [round (loaded e * 100 / t)] else []
  end.

Definition hasValidBackend (base : string) : bool :=
  Nat.ltb 0 (String.length base)
  && negb (String.eqb base "undefined") && negb (String.eqb base "null").

Definition isDev (e : env) : bool :=
  match nodeEnv e with
  | Some s => String.eqb s "development"
  | None => false
  end.

Definition isCanceled (err : error) : bool :=
  isCancel err
  || match e_name err with Some s => String.eqb s "CanceledError" | None => false end
  || match e_message err with Some s => String.eqb s "canceled" | None => false end
  || match e_code err with Some s => String.eqb s "ERR_CANCELED" | None => false end.

(** [upload(formData, { onProgress, endpoint })], with the progress events
    and the end of the request that the network delivers. *)
Definition upload (e : env) (req : request) (events : list progressEvent)
           (net : network) (st : hookState) : run :=
  let base := orEmpty (backendUrl e) in
  let url := if present (endpoint req) then orEmpty (endpoint req)
             else base ++ "gallery/upload" in
  if isDev e && (negb (hasValidBackend base) || negb (present (token e)))
  then
    {| final := {| isUploading := false; lastError := None;
                   controller := controller st |};
       reports := if onProgress req then [100%Z] else [];
       posted := None;
       outcome := Returned
                    match file req with
                    | Some f => MockFile (objectUrl f) (fileName f) (fileSize f)
                    | None => MockEmpty
                    end |}
  else
    let header := if present (token e)
                  then Some ("Bearer " ++ orEmpty (token e)) else None in
    let during := flat_map (percentage (onProgress req)) events in
    match net with
    | Responded data =>
        {| final := {| isUploading := false; lastError := None;
                       controller := false |};
           reports := (during ++ if onProgress req then [100%Z] else [])%list;
           posted := Some (url, header);
           outcome := Returned (ResponseData data) |}
    | Failed err =>
        let w := {| canceled := isCanceled err; cause := err |} in
        {| final := {| isUploading := false; lastError := Some w;
                       controller := false |};
           reports := during;
           posted := Some (url, header);
           outcome := Thrown w |}
    end.


End UploadHook.

(** * Properties *)

(** ** Track compatibility *)

Section CompatFacts.

Import Compat.

Lemma text_left (X : string) :
  areTypesCompatible "text" X = String.eqb X "text".
Proof. unfold areTypesCompatible. reflexivity. Qed.

Lemma text_right (X : string) :
  areTypesCompatible X "text" = String.eqb X "text".
Proof.
  unfold areTypesCompatible.
  rewrite orb_true_r, andb_true_r. reflexivity.
Qed.

Lemma in_kinds_cases (X : string) :
  In X kinds ->
  X = "video" \/ X = "audio" \/ X = "image" \/ X = "imageUrl"
  \/ X = "text" \/ X = "animation".
Proof. unfold kinds. simpl. intuition auto. Qed.

Lemma in_mediaKinds_cases (X : string) :
  In X mediaKinds ->
  X = "video" \/ X = "audio" \/ X = "image" \/ X = "imageUrl" \/ X = "text".
Proof. unfold mediaKinds. simpl. intuition auto. Qed.

(** C2, as the code has it: over the kind set, [animation] shares a row
    with every kind but [text]; the [text] test comes first in
    [areTypesCompatible], so [animation] against [text] is refused. *)
Theorem animation_compatible_unless_text (X : string) :
  In X kinds ->
  areTypesCompatible "animation" X = negb (String.eqb X "text")
  /\ areTypesCompatible X "animation" = negb (String.eqb X "text").
Proof.
  intros H. apply in_kinds_cases in H.
  destruct H as [-> | [-> | [-> | [-> | [-> | ->]]]]]; split; reflexivity.
Qed.

Lemma animation_compatible_unless_text_witness :
  areTypesCompatible "animation" "video" = true
  /\ areTypesCompatible "video" "animation" = true.
Proof.
  apply (animation_compatible_unless_text "video").
  unfold kinds. simpl. auto.
Defined.

(** C2 as stated fails: [text] is in the kind set and [animation] is not
    compatible with it. *)
Lemma animation_text_incompatible :
  ~ (forall X, In X kinds -> areTypesCompatible "animation" X = true).
Proof.
  intros H. specialize (H "text").
  assert (Hin : In "text" kinds) by (unfold kinds; simpl; auto 10).
  specialize (H Hin). discriminate H.
Qed.

(** C5: over video, audio, image / imageUrl and text, two kinds that are
    not text and not both of the image family never share a row, be they
    different or twice video or twice audio; images share a row with images,
    text with text, and text with nothing else. *)
Theorem media_kinds_exclusive (A B X : string) :
  (In A mediaKinds -> In B mediaKinds ->
   A <> "text" -> B <> "text" ->
   ~ (imageFamily A /\ imageFamily B) ->
   A <> B \/ (A = B /\ (A = "video" \/ A = "audio")) ->
   areTypesCompatible A B = false)
  /\ areTypesCompatible "image" "image" = true
  /\ areTypesCompatible "imageUrl" "imageUrl" = true
  /\ areTypesCompatible "image" "imageUrl" = true
  /\ areTypesCompatible "imageUrl" "image" = true
  /\ areTypesCompatible "text" "text" = true
  /\ (X <> "text" ->
      areTypesCompatible "text" X = false
      /\ areTypesCompatible X "text" = false).
Proof.
  repeat split; try reflexivity.
  - intros HA HB HtA HtB Himg _.
    apply in_mediaKinds_cases in HA. apply in_mediaKinds_cases in HB.
    unfold imageFamily in Himg.
    destruct HA as [-> | [-> | [-> | [-> | ->]]]];
      destruct HB as [-> | [-> | [-> | [-> | ->]]]];
      try reflexivity; try congruence; exfalso; apply Himg; auto.
  - rewrite text_left. apply String.eqb_neq. assumption.
  - rewrite text_right. apply String.eqb_neq. assumption.
Qed.

Lemma media_kinds_exclusive_witness :
  areTypesCompatible "video" "audio" = false
  /\ areTypesCompatible "text" "animation" = false.
Proof.
  destruct (media_kinds_exclusive "video" "audio" "animation")
    as [Hpair [_ [_ [_ [_ [_ Htext]]]]]].
  split.
  - apply Hpair.
    + unfold mediaKinds. simpl. auto.
    + unfold mediaKinds. simpl. auto.
    + discriminate.
    + discriminate.
    + unfold imageFamily. intros [[H | H] _]; discriminate H.
    + left. discriminate.
  - apply Htext. discriminate.
Defined.

(** C10: a dragged item whose MIME type starts with neither [audio/] nor
    [video/] is taken for an image ([imageUrl]), whatever the type is; the
    row is then flagged exactly as it is for an image file. *)
Theorem file_drag_kind_defaults_to_image
        (fileType : option string) (overlays : list overlay) (targetRow : Z) :
  startsWith fileType "audio/" = false ->
  startsWith fileType "video/" = false ->
  targetElementType fileType = "imageUrl"
  /\ targetElementType fileType = targetElementType (Some "image/png")
  /\ isIncompatible overlays targetRow fileType
     = isIncompatible overlays targetRow (Some "image/png")
  /\ (forall (grid : option Ghost.Rect) rows maxTime e g,
         Ghost.itemType e = fileType ->
         Ghost.handleGlobalDragOver grid rows overlays maxTime e g
         = Ghost.handleGlobalDragOver grid rows overlays maxTime
             (Ghost.withItemType e (Some "image/png")) g).
Proof.
  intros Ha Hv.
  assert (Hk : targetElementType fileType = "imageUrl").
  { unfold targetElementType. rewrite Ha, Hv. reflexivity. }
  assert (Hi : forall tr, isIncompatible overlays tr fileType
               = isIncompatible overlays tr (Some "image/png")).
  { intros tr. unfold isIncompatible. rewrite Hk. reflexivity. }
  repeat split; auto.
  intros grid rows maxTime e g He.
  unfold Ghost.handleGlobalDragOver.
  destruct grid as [gridRect |]; [| reflexivity].
  unfold Ghost.isOverGrid, Ghost.withItemType. simpl.
  rewrite He, Hi. reflexivity.
Qed.

Lemma file_drag_kind_defaults_to_image_witness :
  targetElementType (Some "text/plain") = "imageUrl"
  /\ isIncompatible [mkOverlay 0 "video"] 0 (Some "text/plain") = JBool true.
Proof.
  destruct (file_drag_kind_defaults_to_image (Some "text/plain")
              [mkOverlay 0 "video"] 0 eq_refl eq_refl) as [Hk [_ [Hi _]]].
  split; [exact Hk | rewrite Hi; reflexivity].
Defined.

(** Text files, unknown types, the empty type and a missing type all fall
    under the default. *)
Example file_drag_default_cases :
  targetElementType (Some "text/plain") = "imageUrl"
  /\ targetElementType (Some "application/x-unknown") = "imageUrl"
  /\ targetElementType (Some "") = "imageUrl"
  /\ targetElementType None = "imageUrl"
  /\ targetElementType (Some "audio/mpeg") = "audio"
  /\ targetElementType (Some "video/mp4") = "video".
Proof. repeat split. Qed.

End CompatFacts.

(** ** Ruler marker generator *)

Section RulerFacts.

Import Ruler.
Local Open Scope Q_scope.

Lemma option_map_cons_some {A : Type} (x : A) (o : option (list A)) :
  o <> None -> option_map (cons x) o <> None.
Proof. destruct o; simpl; congruence. Qed.

(** The frame loop leaves through its test when the fuel covers the frames
    that remain. *)
Lemma frameLoop_total (fuel : nat) :
  forall maxTime fps frameDuration maxFrames frameInterval f,
    (1 <= frameInterval)%Z ->
    (maxFrames < f + Z.of_nat fuel * frameInterval)%Z ->
    frameLoop (S fuel) maxTime fps frameDuration maxFrames frameInterval f
    <> None.
Proof.
  induction fuel as [| fuel IH]; intros maxTime fps fd maxFrames fi f Hfi Hlt.
  - simpl. destruct (Z.leb_spec f maxFrames); [lia | discriminate].
  - change (frameLoop (S (S fuel)) maxTime fps fd maxFrames fi f)
      with (if (f <=? maxFrames)%Z
            then option_map (cons (frameMarker maxTime fps fd f))
                   (frameLoop (S fuel) maxTime fps fd maxFrames fi (f + fi)%Z)
            else Some []).
    destruct (f <=? maxFrames)%Z; [| discriminate].
    apply option_map_cons_some. apply IH; [assumption | lia].
Qed.

(** The same for the time loop. *)
Lemma timeLoop_total (fuel : nat) :
  forall maxTime maxTimeSeconds intervalSeconds t,
    0 < intervalSeconds ->
    maxTimeSeconds < t + inject_Z (Z.of_nat fuel) * intervalSeconds ->
    timeLoop (S fuel) maxTime maxTimeSeconds intervalSeconds t <> None.
Proof.
  induction fuel as [| fuel IH]; intros maxTime maxS i t Hi Hlt.
  - simpl. destruct (Qle_bool t maxS) eqn:E; [| discriminate].
    apply Qle_bool_iff in E. exfalso.
    assert (H0 : t + inject_Z (Z.of_nat 0) * i == t) by (simpl; ring).
    rewrite H0 in Hlt. apply (Qlt_irrefl t).
    apply Qle_lt_trans with maxS; assumption.
  - change (timeLoop (S (S fuel)) maxTime maxS i t)
      with (if Qle_bool t maxS
            then option_map (cons (timeMarker maxTime i t))
                   (timeLoop (S fuel) maxTime maxS i (t + i))
            else Some []).
    destruct (Qle_bool t maxS); [| discriminate].
    apply option_map_cons_some. apply IH; [assumption |].
    assert (H1 : t + i + inject_Z (Z.of_nat fuel) * i
                 == t + inject_Z (Z.of_nat (S fuel)) * i).
    { rewrite Nat2Z.inj_succ. unfold Z.succ. rewrite inject_Z_plus. ring. }
    rewrite H1. assumption.
Qed.

Lemma timeFuel_enough (maxTimeSeconds intervalSeconds : Q) :
  0 < intervalSeconds ->
  maxTimeSeconds
  < 0 + inject_Z (Z.of_nat (S (Z.to_nat (Qfloor (maxTimeSeconds / intervalSeconds)))))
        * intervalSeconds.
Proof.
  intros Hi.
  set (k := Qfloor (maxTimeSeconds / intervalSeconds)).
  assert (Hk : maxTimeSeconds / intervalSeconds < inject_Z (k + 1))
    by (apply Qlt_floor).
  assert (Hle : inject_Z (k + 1) <= inject_Z (Z.of_nat (S (Z.to_nat k)))).
  { rewrite <- Zle_Qle. lia. }
  assert (Hlt : maxTimeSeconds / intervalSeconds
                < inject_Z (Z.of_nat (S (Z.to_nat k))))
    by (eapply Qlt_le_trans; eassumption).
  apply (Qmult_lt_compat_r _ _ intervalSeconds Hi) in Hlt.
  assert (Hne : ~ intervalSeconds == 0).
  { intros E. rewrite E in Hi. exact (Qlt_irrefl 0 Hi). }
  assert (Hd : maxTimeSeconds / intervalSeconds * intervalSeconds
               == maxTimeSeconds) by (field; exact Hne).
  rewrite Hd in Hlt. rewrite Qplus_0_l. exact Hlt.
Qed.

(** The generator always returns a marker list: neither loop runs out of
    fuel, at any duration, frame rate and zoom. *)
Lemma rulerMarkers_total (maxTime fps : option Q) (scale : Q) :
  rulerMarkers maxTime fps scale <> None.
Proof.
  unfold rulerMarkers.
  destruct (falsy maxTime); [discriminate |].
  unfold chooseInterval.
  repeat match goal with
         | |- context [if gt ?a ?b then _ else _] => destruct (gt a b)
         end;
    cbv iota beta;
    first
      [ apply frameLoop_total; unfold frameFuel; lia
      | apply timeLoop_total; [reflexivity | apply timeFuel_enough; reflexivity] ].
Qed.

(** C1, as the code has it: at [scale = 1] the test [scale > 1] fails, the
    interval is 60 seconds, and for a 60000 ms timeline at 30 fps the markers
    are exactly those of 0 s and 60 s, at 0 and 100 percent. *)
Theorem ruler_one_minute_at_scale_one :
  option_map (map view) (rulerMarkers (Some 60000) (Some 30) 1)
  = Some [(0, 0); (60, 100)].
Proof. vm_compute. reflexivity. Qed.

(** C1 as stated fails: the generator puts no marker at 30 s. *)
Lemma ruler_no_marker_at_thirty_seconds :
  option_map (map view) (rulerMarkers (Some 60000) (Some 30) 1)
  <> Some [(0, 0); (30, 50); (60, 100)].
Proof. vm_compute. discriminate. Qed.

(** The 30 second interval belongs to the zoom levels above 1, up to 2. *)
Example ruler_thirty_seconds_above_scale_one :
  option_map (map view) (rulerMarkers (Some 60000) (Some 30) (3 # 2))
  = Some [(0, 0); (30, 50); (60, 100)].
Proof. vm_compute. reflexivity. Qed.

End RulerFacts.

(** ** Media metadata probe *)

Section ProbeFacts.

Import Num Probe.

Ltac probe_unfold :=
  unfold step, onCanPlayThrough, onLoaded, onError, onTimeout, onWaitDuration,
    onRecheck, detectAudioAndResolve, resolve, cleanup, clearTimeout,
    setTimeout, detachLoaded, detachCanPlayThrough, detachError, expire.

Ltac probe_cases :=
  repeat match goal with
         | |- context [if ?c then _ else _] => destruct c eqn:?; simpl
         | |- context [match ?c with CbTimeout => _ | _ => _ end] =>
             destruct c; simpl
         end.

(** A turn of the event loop leaves the promise alone or resolves it. *)
Lemma step_promise (url : string) (st : state) (e : event) :
  promise (step url st e) = promise st
  \/ exists m, promise (step url st e) = settle (promise st) (Resolved m).
Proof.
  destruct e as [v | v | | cb v]; probe_unfold; simpl; probe_cases;
    solve [left; reflexivity | right; eexists; reflexivity].
Qed.

Lemma step_keeps_resolved (url : string) (st : state) (e : event) (m : meta) :
  promise st = Resolved m -> promise (step url st e) = Resolved m.
Proof.
  intros H. destruct (step_promise url st e) as [E | [m' E]];
    rewrite E, H; reflexivity.
Qed.

Lemma step_never_rejects (url : string) (st : state) (e : event) :
  (forall r, promise st <> Rejected r) ->
  forall r, promise (step url st e) <> Rejected r.
Proof.
  intros H r. destruct (step_promise url st e) as [E | [m' E]]; rewrite E.
  - apply H.
  - specialize (H r). destruct (promise st); simpl; congruence.
Qed.

Lemma runFrom_keeps_resolved (url : string) (trace : list event) :
  forall st m, promise st = Resolved m ->
               promise (runFrom url st trace) = Resolved m.
Proof.
  induction trace as [| e trace IH]; intros st m H; simpl.
  - exact H.
  - apply IH. apply step_keeps_resolved. exact H.
Qed.

Lemma runFrom_never_rejects (url : string) (trace : list event) :
  forall st, (forall r, promise st <> Rejected r) ->
             forall r, promise (runFrom url st trace) <> Rejected r.
Proof.
  induction trace as [| e trace IH]; intros st H; simpl.
  - exact H.
  - apply IH. apply step_never_rejects. exact H.
Qed.

Lemma runFrom_app (url : string) (st : state) (t1 t2 : list event) :
  runFrom url st (t1 ++ t2) = runFrom url (runFrom url st t1) t2.
Proof. unfold runFrom. apply fold_left_app. Qed.

Lemma start_never_rejected url timeoutMs srcThrows :
  forall r, promise (start url timeoutMs srcThrows) <> Rejected r.
Proof.
  intros r. unfold start.
  destruct (unset url); simpl; [discriminate |].
  destruct srcThrows; simpl; discriminate.
Qed.

(** Timers of another kind do not stop the bounded wait. *)
Lemma pending_timeout_removeTimer (cb : callback) (ts : list (callback * Q)) :
  cb <> CbTimeout ->
  existsb (fun t => callback_eqb (fst t) CbTimeout) (removeTimer cb ts)
  = existsb (fun t => callback_eqb (fst t) CbTimeout) ts.
Proof.
  intros Hcb. induction ts as [| [c ms] ts IH]; simpl; [reflexivity |].
  destruct (callback_eqb c cb) eqn:E; simpl.
  - destruct c, cb; simpl in *; try discriminate; try congruence; reflexivity.
  - rewrite IH. reflexivity.
Qed.

Lemma pending_timeout_setTimeout (cb : callback) (ms : Q) (ts : list (callback * Q)) :
  existsb (fun t => callback_eqb (fst t) CbTimeout) ts = true ->
  existsb (fun t => callback_eqb (fst t) CbTimeout) (ts ++ [(cb, ms)]) = true.
Proof. intros H. rewrite existsb_app, H. reflexivity. Qed.

Lemma step_not_pending (url : string) (st : state) (e : event) :
  promise st <> Pending -> promise (step url st e) <> Pending.
Proof.
  intros H. destruct (step_promise url st e) as [E | [m E]]; rewrite E.
  - exact H.
  - destruct (promise st); simpl; congruence.
Qed.

(** The probe stays able to hear a failure for as long as it is pending. *)
Lemma step_armed (url : string) (st : state) (e : event) :
  armed st -> armed (step url st e).
Proof.
  intros Ha Hp.
  destruct (promise st) eqn:P;
    [| exfalso; apply (step_not_pending url st e);
       [rewrite P; discriminate | exact Hp] ..].
  destruct (Ha P) as (R & L & T). unfold pending in *.
  revert Hp.
  destruct e as [v | v | | cb v]; probe_unfold; unfold pending; simpl;
    rewrite ?R, ?L, ?T, ?P; simpl; probe_cases; rewrite ?R, ?L, ?T, ?P; simpl;
    intros Hp; try discriminate Hp; auto.
  all: try (repeat split; auto; try apply pending_timeout_setTimeout;
            try (rewrite pending_timeout_removeTimer by discriminate); auto).
Qed.

Lemma start_armed url timeoutMs srcThrows :
  armed (start url timeoutMs srcThrows).
Proof.
  unfold armed, start.
  destruct (unset url); simpl; [discriminate |].
  destruct srcThrows; simpl; [discriminate |].
  intros _. repeat split.
Qed.

Lemma runFrom_armed (url : string) (trace : list event) :
  forall st, armed st -> armed (runFrom url st trace).
Proof.
  induction trace as [| e trace IH]; intros st H; simpl.
  - exact H.
  - apply IH. apply step_armed. exact H.
Qed.

Lemma run_armed url timeoutMs srcThrows trace :
  armed (run url timeoutMs srcThrows trace).
Proof. apply runFrom_armed. apply start_armed. Qed.

(** A media error or the expiry of the bounded wait settles a pending
    probe with the fallback. *)
Lemma failure_resolves_fallback (url : string) (st : state) (e : event) :
  armed st -> promise st = Pending -> isFailure e ->
  promise (step url st e) = Resolved fallback.
Proof.
  intros Ha P He. destruct (Ha P) as (R & L & T).
  destruct He as [-> | [v ->]]; probe_unfold; simpl.
  - rewrite L. simpl. repeat (rewrite ?R, ?P; simpl). reflexivity.
  - rewrite T. simpl. repeat (rewrite ?R, ?P; simpl). reflexivity.
Qed.

Lemma gt0_valid (n : num) :
  gt0 n = true -> truthy n = true /\ le0 n = false /\ orZero n = n.
Proof.
  unfold orZero. destruct n as [| q |]; simpl; intros H; try discriminate.
  - assert (Hle : Qle_bool q 0 = false) by (destruct (Qle_bool q 0); auto; discriminate).
    assert (Heq : Qeq_bool q 0 = false).
    { destruct (Qeq_bool q 0) eqn:E; [| reflexivity].
      apply Qeq_bool_iff in E.
      assert (Hq : Qle_bool q 0 = true)
        by (apply Qle_bool_iff; rewrite E; apply Qle_refl).
      congruence. }
    rewrite Heq, Hle. simpl. auto.
  - auto.
Qed.

(** Detection on an element with a valid duration always answers that audio
    is present: a positive signal says so, and without one the default does. *)
Lemma detect_assumes_audio (v : video) (st : state) :
  resolved st = false -> promise st = Pending -> gt0 (duration v) = true ->
  promise (detectAudioAndResolve v st)
  = Resolved {| durationMs := mul1000 (duration v); hasAudio := true |}.
Proof.
  intros R P Hd. destruct (gt0_valid _ Hd) as (Ht & Hl & Ho).
  unfold detectAudioAndResolve, resolve, cleanup, clearTimeout. simpl.
  repeat (rewrite ?R, ?P, ?Ho, ?Hd; simpl).
  destruct (mozHasAudio v || webkitHasAudio v || hasAudioTracks v
            || audioContextCheck v); reflexivity.
Qed.

Lemma looking_resolves_with_audio (url : string) (st : state) (e : event)
      (v : video) :
  armed st -> promise st = Pending -> looksAt st e v ->
  gt0 (duration v) = true ->
  promise (step url st e)
  = Resolved {| durationMs := mul1000 (duration v); hasAudio := true |}.
Proof.
  intros Ha P Hl Hd. destruct (Ha P) as (R & L & T).
  destruct (gt0_valid _ Hd) as (Ht & Hle & Ho).
  destruct Hl as [[-> Hlis] | [[-> [Hlis Hrs]] | [-> Hpen]]]; unfold step.
  - rewrite Hlis. unfold onLoaded.
    change (resolved (detachLoaded st)) with (resolved st).
    rewrite R, Ht, Hle. cbv [negb orb].
    destruct (isBlob url);
      apply (detect_assumes_audio v (detachLoaded st)); auto.
  - rewrite Hlis. unfold onCanPlayThrough.
    change (resolved (detachCanPlayThrough st)) with (resolved st).
    apply Nat.leb_le in Hrs. rewrite R, Hrs. cbv [negb andb].
    unfold onLoaded.
    change (resolved (detachCanPlayThrough st)) with (resolved st).
    rewrite R, Ht, Hle. cbv [negb orb].
    destruct (isBlob url);
      apply (detect_assumes_audio v (detachCanPlayThrough st)); auto.
  - rewrite Hpen. unfold onWaitDuration.
    change (resolved (expire CbWaitDuration st)) with (resolved st).
    rewrite R, Hd. cbv [negb andb].
    apply (detect_assumes_audio v (expire CbWaitDuration st)); auto.
Qed.

Lemma run_snoc url timeoutMs srcThrows (pre post : list event) (e : event) :
  run url timeoutMs srcThrows (pre ++ e :: post)
  = runFrom (urlOf url)
      (step (urlOf url) (run url timeoutMs srcThrows pre) e) post.
Proof. unfold run. rewrite fold_left_app. reflexivity. Qed.

(** C6: the probe never rejects; with an unset url, or when setting the
    source raises, it resolves with the fallback at once; a media error or
    the expiry of the bounded wait, reaching the probe while it is pending,
    resolves it with exactly the fallback; and once the bounded wait has
    expired the probe is resolved, whatever else happened. *)
Theorem probe_never_rejects_and_falls_back
        (url : option string) (timeoutMs : option Q) (srcThrows : bool)
        (pre post : list event) (e : event) :
  (forall trace r,
      getVideoMetadataFromUrl url timeoutMs srcThrows trace <> Rejected r)
  /\ (unset url = true ->
      forall trace,
        getVideoMetadataFromUrl url timeoutMs srcThrows trace
        = Resolved {| durationMs := Fin 10000; hasAudio := false |})
  /\ (forall trace,
         getVideoMetadataFromUrl url timeoutMs true trace
         = Resolved {| durationMs := Fin 10000; hasAudio := false |})
  /\ (isFailure e ->
      getVideoMetadataFromUrl url timeoutMs srcThrows pre = Pending ->
      getVideoMetadataFromUrl url timeoutMs srcThrows (pre ++ e :: post)
      = Resolved {| durationMs := Fin 10000; hasAudio := false |})
  /\ (forall trace v,
         In (Fire CbTimeout v) trace ->
         exists m, getVideoMetadataFromUrl url timeoutMs srcThrows trace
                   = Resolved m).
Proof.
  assert (Hfail : forall p q f,
             isFailure f ->
             getVideoMetadataFromUrl url timeoutMs srcThrows p = Pending ->
             getVideoMetadataFromUrl url timeoutMs srcThrows (p ++ f :: q)
             = Resolved fallback).
  { intros p q f Hf Hp. unfold getVideoMetadataFromUrl in *.
    rewrite run_snoc. apply runFrom_keeps_resolved.
    apply failure_resolves_fallback; [apply run_armed | exact Hp | exact Hf]. }
  repeat split.
  - intros trace r. unfold getVideoMetadataFromUrl, run.
    apply runFrom_never_rejects. apply start_never_rejected.
  - intros Hu trace. unfold getVideoMetadataFromUrl, run.
    apply runFrom_keeps_resolved. unfold start. rewrite Hu. reflexivity.
  - intros trace. unfold getVideoMetadataFromUrl, run.
    apply runFrom_keeps_resolved. unfold start.
    destruct (unset url); reflexivity.
  - apply Hfail.
  - intros trace v Hin.
    destruct (in_split _ _ Hin) as (p & q & ->).
    destruct (getVideoMetadataFromUrl url timeoutMs srcThrows p) as [| m | r] eqn:E.
    + exists fallback. apply Hfail; [right; exists v; reflexivity | exact E].
    + exists m. unfold getVideoMetadataFromUrl in *.
      rewrite run_snoc. apply runFrom_keeps_resolved.
      apply step_keeps_resolved. exact E.
    + exfalso. revert E. unfold getVideoMetadataFromUrl, run.
      apply runFrom_never_rejects. apply start_never_rejected.
Qed.

Lemma probe_never_rejects_and_falls_back_witness :
  getVideoMetadataFromUrl (Some "https://cdn.example/clip.mp4") None false
    [MediaError]
  = Resolved {| durationMs := Fin 10000; hasAudio := false |}.
Proof.
  destruct (probe_never_rejects_and_falls_back
              (Some "https://cdn.example/clip.mp4") None false [] [] MediaError)
    as [_ [_ [_ [Hfail _]]]].
  apply Hfail.
  - left. reflexivity.
  - reflexivity.
Defined.

(** C7: when the probe looks at an element whose duration is valid and
    positive and on which no audio signal is positive, it resolves with
    [hasAudio = true] and that duration in milliseconds; a failure at the
    same point resolves with [hasAudio = false]. *)
Theorem probe_assumes_audio_when_unconfirmed
        (url : option string) (timeoutMs : option Q) (srcThrows : bool)
        (pre post : list event) (e : event) (v : video) :
  getVideoMetadataFromUrl url timeoutMs srcThrows pre = Pending ->
  looksAt (run url timeoutMs srcThrows pre) e v ->
  gt0 (duration v) = true ->
  noAudioSignal v ->
  getVideoMetadataFromUrl url timeoutMs srcThrows (pre ++ e :: post)
  = Resolved {| durationMs := mul1000 (duration v); hasAudio := true |}
  /\ (forall f,
         isFailure f ->
         exists m,
           getVideoMetadataFromUrl url timeoutMs srcThrows (pre ++ f :: post)
           = Resolved m
           /\ hasAudio m = false).
Proof.
  intros Hp Hl Hd _. unfold getVideoMetadataFromUrl in *. split.
  - rewrite run_snoc. apply runFrom_keeps_resolved.
    apply looking_resolves_with_audio; auto. apply run_armed.
  - intros f Hf. exists fallback. split; [| reflexivity].
    rewrite run_snoc. apply runFrom_keeps_resolved.
    apply failure_resolves_fallback; auto. apply run_armed.
Qed.

Lemma probe_assumes_audio_when_unconfirmed_witness :
  getVideoMetadataFromUrl (Some "blob:clip") None false
    [LoadedMetadata
       {| duration := Fin 8; mozHasAudio := false;
          webkitAudioDecodedByteCount := Some (Fin 0);
          audioTracks := None; readyState := 1 |}]
  = Resolved {| durationMs := mul1000 (Fin 8); hasAudio := true |}.
Proof.
  pose (v := {| duration := Fin 8; mozHasAudio := false;
                webkitAudioDecodedByteCount := Some (Fin 0);
                audioTracks := None; readyState := 1 |}).
  assert (Hp : getVideoMetadataFromUrl (Some "blob:clip") None false []
               = Pending) by reflexivity.
  assert (Hl : looksAt (run (Some "blob:clip") None false [])
                 (LoadedMetadata v) v) by (left; split; reflexivity).
  assert (Hd : gt0 (duration v) = true) by reflexivity.
  assert (Hn : noAudioSignal v) by (repeat split).
  exact (proj1 (probe_assumes_audio_when_unconfirmed
                  (Some "blob:clip") None false [] [] (LoadedMetadata v) v
                  Hp Hl Hd Hn)).
Defined.

(** The second look that [onLoaded] schedules never changes the answer: the
    first detection has already resolved the probe. *)
Example probe_recheck_is_idle :
  let quiet := {| duration := Fin 8; mozHasAudio := false;
                  webkitAudioDecodedByteCount := None;
                  audioTracks := None; readyState := 1 |} in
  let loud := {| duration := Fin 8; mozHasAudio := true;
                 webkitAudioDecodedByteCount := None;
                 audioTracks := Some 1%nat; readyState := 4 |} in
  getVideoMetadataFromUrl (Some "blob:clip") None false
    [LoadedMetadata quiet; Fire CbRecheck loud]
  = getVideoMetadataFromUrl (Some "blob:clip") None false
      [LoadedMetadata quiet].
Proof. reflexivity. Qed.

End ProbeFacts.

(** ** Drop pipeline *)

Section DropFacts.

Import Num Probe Drop.

Lemma audioStep_promise (st : audioState) (e : audioEvent) :
  a_promise (audioStep st e) = a_promise st
  \/ (a_promise st = Pending
      /\ ((exists d, a_promise (audioStep st e) = Resolved (orZero d))
          \/ exists r, a_promise (audioStep st e) = Rejected r)).
Proof.
  destruct e as [d | | d]; unfold audioStep;
    [| | destruct (a_timers st); [left; reflexivity |]; destruct (truthy d)];
    cbn [a_promise negb]; destruct (a_promise st); cbn [settle];
    try (left; reflexivity);
    right; (split; [reflexivity |]);
    solve [left; eexists; reflexivity | right; eexists; reflexivity].
Qed.

(** A duration the audio probe resolves with went through [|| 0]. *)
Lemma audioRunFrom_resolved (trace : list audioEvent) :
  forall st sec,
    (forall x, a_promise st = Resolved x -> exists d, x = orZero d) ->
    a_promise (audioRunFrom st trace) = Resolved sec ->
    exists d, sec = orZero d.
Proof.
  induction trace as [| e trace IH]; intros st sec Hst H; simpl in H.
  - apply Hst. exact H.
  - apply (IH (audioStep st e) sec); [| exact H].
    intros x Hx.
    destruct (audioStep_promise st e) as [E | [P [[d E] | [r E]]]].
    + apply Hst. rewrite <- E. exact Hx.
    + exists d. congruence.
    + congruence.
Qed.

Lemma audioRunFrom_settled (trace : list audioEvent) :
  forall st, a_promise st <> Pending ->
             a_promise (audioRunFrom st trace) = a_promise st.
Proof.
  induction trace as [| e trace IH]; intros st H; simpl; [reflexivity |].
  destruct (audioStep_promise st e) as [E | [P _]]; [| contradiction].
  rewrite IH; rewrite E; auto.
Qed.

Lemma orZero_clamped (d : num) : atLeast1000 (max1000 (mul1000 (orZero d))).
Proof.
  unfold orZero. destruct d as [| q |]; simpl.
  - discriminate.
  - destruct (Qeq_bool q 0); simpl.
    + discriminate.
    + destruct (Qle_bool 1000 (q * 1000)) eqn:E.
      * apply Qle_bool_iff. exact E.
      * apply Qle_refl.
  - exact I.
Qed.

(** The probe after its first event, when that event settles it. *)
Lemma audio_first_event_settles (e : audioEvent) (rest : list audioEvent) :
  a_promise (audioStep audioStart e) <> Pending ->
  getAudioDurationSeconds (e :: rest) = a_promise (audioStep audioStart e).
Proof.
  intros H. unfold getAudioDurationSeconds. cbn [audioRunFrom fold_left].
  apply (audioRunFrom_settled rest). exact H.
Qed.

(** The same after a timer that found a duration and did nothing. *)
Lemma audio_second_event_settles (d : num) (e : audioEvent)
      (rest : list audioEvent) :
  truthy d = true ->
  a_promise (audioStep {| a_promise := Pending; a_timers := [] |} e)
  <> Pending ->
  getAudioDurationSeconds (AudioTimeout d :: e :: rest)
  = a_promise (audioStep {| a_promise := Pending; a_timers := [] |} e).
Proof.
  intros Hd H. unfold getAudioDurationSeconds.
  cbn [audioRunFrom fold_left audioStep audioStart a_timers a_promise].
  rewrite Hd. cbn [negb].
  apply (audioRunFrom_settled rest). exact H.
Qed.

(** A probed duration, in milliseconds and raised to 1000, is the larger of
    the two. *)
Lemma clamp_is_max (q : Q) :
  (1000 <= (if Qle_bool 1000 (q * 1000) then q * 1000 else 1000))%Q
  /\ (q * 1000 <= (if Qle_bool 1000 (q * 1000) then q * 1000 else 1000))%Q.
Proof.
  destruct (Qle_bool 1000 (q * 1000)) eqn:E.
  - apply Qle_bool_iff in E. split; [exact E | apply Qle_refl].
  - split; [apply Qle_refl |].
    apply Qlt_le_weak. apply Qnot_le_lt. intros Hc.
    apply Qle_bool_iff in Hc. congruence.
Qed.

(** C8, as the code has it: the duration of a dropped audio file is the
    upload's duration times 1000 when the upload carries a number. Otherwise
    the file is probed under one timer of 5000 ms: a [loadedmetadata] gives
    [audio.duration || 0] times 1000, raised to 1000 when it is less; a
    media error gives 5000; the expiry of the timer gives 5000 when
    [audio.duration] is still [NaN] or [0], and does nothing when a duration
    is already set - the branch then goes on waiting for [loadedmetadata]
    or [error]. *)
Theorem audio_duration_resolution
        (u : upload) (rest : list audioEvent) (q : Q) (d : num) :
  (r_duration u = Some (Fin q) ->
   audioDurationMs u rest = Some (Fin (q * 1000)))
  /\ a_timers audioStart = [5000%Q]
  /\ (r_duration u = None ->
      audioDurationMs u (AudioLoaded (Fin q) :: rest)
      = Some (Fin (if Qle_bool 1000 (q * 1000) then q * 1000 else 1000))
      /\ (1000 <= (if Qle_bool 1000 (q * 1000) then q * 1000 else 1000))%Q
      /\ (q * 1000 <= (if Qle_bool 1000 (q * 1000) then q * 1000 else 1000))%Q
      /\ audioDurationMs u (AudioLoaded NaN :: rest) = Some (Fin 1000)
      /\ audioDurationMs u (AudioLoaded Inf :: rest) = Some Inf
      /\ audioDurationMs u (AudioError :: rest) = Some (Fin 5000)
      /\ (truthy d = false ->
          audioDurationMs u (AudioTimeout d :: rest) = Some (Fin 5000))
      /\ (truthy d = true ->
          audioDurationMs u [AudioTimeout d] = None
          /\ audioDurationMs u (AudioTimeout d :: AudioLoaded (Fin q) :: rest)
             = Some (Fin (if Qle_bool 1000 (q * 1000) then q * 1000 else 1000))
          /\ audioDurationMs u (AudioTimeout d :: AudioError :: rest)
             = Some (Fin 5000))
      /\ (forall trace s,
             getAudioDurationSeconds trace = Resolved (Fin s) ->
             audioDurationMs u trace
             = Some (Fin (if Qle_bool 1000 (s * 1000) then s * 1000 else 1000)))
      /\ (forall trace r,
             getAudioDurationSeconds trace = Rejected r ->
             audioDurationMs u trace = Some (Fin 5000))).
Proof.
  assert (Hloaded : forall q0 : Q,
             max1000 (mul1000 (orZero (Fin q0)))
             = Fin (if Qle_bool 1000 (q0 * 1000) then q0 * 1000 else 1000)).
  { intros q0. unfold orZero, truthy.
    destruct (Qeq_bool q0 0) eqn:E; cbn [negb mul1000 max1000];
      [| reflexivity].
    apply Qeq_bool_iff in E.
    assert (Hf : Qle_bool 1000 (q0 * 1000) = false).
    { destruct (Qle_bool 1000 (q0 * 1000)) eqn:L; [| reflexivity].
      apply Qle_bool_iff in L. rewrite E in L. exfalso.
      revert L. unfold Qle. simpl. lia. }
    rewrite Hf. reflexivity. }
  split; [| split; [reflexivity |]].
  - intros Hd. unfold audioDurationMs. rewrite Hd. reflexivity.
  - intros Hn. unfold audioDurationMs. rewrite Hn.
    split; [| split; [| split; [| split; [| split; [| split;
      [| split; [| split; [| split]]]]]]]].
    + rewrite audio_first_event_settles by discriminate.
      cbn [audioStep audioStart a_promise settle]. rewrite Hloaded. reflexivity.
    + apply clamp_is_max.
    + apply clamp_is_max.
    + rewrite audio_first_event_settles by discriminate. reflexivity.
    + rewrite audio_first_event_settles by discriminate. reflexivity.
    + rewrite audio_first_event_settles by discriminate. reflexivity.
    + intros Hd. rewrite audio_first_event_settles;
        cbn [audioStep audioStart a_promise a_timers]; rewrite Hd;
        cbn [negb settle]; [reflexivity | discriminate].
    + intros Hd. split; [| split].
      * unfold getAudioDurationSeconds.
        cbn [audioRunFrom fold_left audioStep audioStart a_timers a_promise].
        rewrite Hd. reflexivity.
      * rewrite (audio_second_event_settles d _ rest Hd) by discriminate.
        cbn [audioStep a_promise settle]. rewrite Hloaded. reflexivity.
      * rewrite (audio_second_event_settles d _ rest Hd) by discriminate.
        reflexivity.
    + intros trace s Hs. rewrite Hs.
      destruct (audioRunFrom_resolved trace audioStart (Fin s)) as [d0 Hd0].
      * intros x Hx. discriminate Hx.
      * exact Hs.
      * destruct d0 as [| q0 |]; unfold orZero, truthy in Hd0.
        -- cbn in Hd0. inversion Hd0; subst s. reflexivity.
        -- destruct (Qeq_bool q0 0); cbn in Hd0; inversion Hd0; subst s;
             reflexivity.
        -- cbn in Hd0. discriminate Hd0.
    + intros trace r Hr. rewrite Hr. reflexivity.
Qed.

Lemma audio_duration_resolution_witness :
  audioDurationMs
    {| f_name := "voice.mp3"; r_url := "https://cdn.example/voice.mp3";
       r_key := None; r_duration := Some (Fin (7 # 2)) |} [AudioError]
  = Some (Fin (7000 # 2))
  /\ audioDurationMs
       {| f_name := "click.wav"; r_url := "blob:click";
          r_key := None; r_duration := None |} [AudioLoaded (Fin (1 # 2))]
     = Some (Fin 1000)
  /\ audioDurationMs
       {| f_name := "song.wav"; r_url := "blob:song";
          r_key := None; r_duration := None |} [AudioLoaded (Fin 180)]
     = Some (Fin 180000)
  /\ audioDurationMs
       {| f_name := "click.wav"; r_url := "blob:click";
          r_key := None; r_duration := None |} [AudioTimeout NaN]
     = Some (Fin 5000)
  /\ audioDurationMs
       {| f_name := "click.wav"; r_url := "blob:click";
          r_key := None; r_duration := None |} [AudioTimeout (Fin 3)]
     = None.
Proof.
  split; [| split; [| split; [| split]]].
  - exact (proj1 (audio_duration_resolution
                    {| f_name := "voice.mp3";
                       r_url := "https://cdn.example/voice.mp3";
                       r_key := None; r_duration := Some (Fin (7 # 2)) |}
                    [AudioError] (7 # 2) NaN) eq_refl).
  - exact (proj1 (proj2 (proj2 (audio_duration_resolution
                    {| f_name := "click.wav"; r_url := "blob:click";
                       r_key := None; r_duration := None |}
                    [] (1 # 2) NaN)) eq_refl)).
  - exact (proj1 (proj2 (proj2 (audio_duration_resolution
                    {| f_name := "song.wav"; r_url := "blob:song";
                       r_key := None; r_duration := None |}
                    [] 180 NaN)) eq_refl)).
  - destruct (proj2 (proj2 (audio_duration_resolution
                    {| f_name := "click.wav"; r_url := "blob:click";
                       r_key := None; r_duration := None |}
                    [] 0 NaN)) eq_refl)
      as (_ & _ & _ & _ & _ & _ & Hfalsy & _).
    exact (Hfalsy eq_refl).
  - destruct (proj2 (proj2 (audio_duration_resolution
                    {| f_name := "click.wav"; r_url := "blob:click";
                       r_key := None; r_duration := None |}
                    [] 0 (Fin 3))) eq_refl)
      as (_ & _ & _ & _ & _ & _ & _ & Htruthy & _).
    exact (proj1 (Htruthy eq_refl)).
Defined.

(** C8 as stated fails: the expiry of the timer does not always lead to
    5000 ms. When [audio.duration] is already set as the timer expires, the
    test [!audio.duration] fails, nothing is rejected, and the
    [loadedmetadata] that follows gives the probed duration. *)
Lemma audio_timeout_with_duration_is_ignored :
  ~ (forall (u : upload) (d : num) (rest : list audioEvent),
        r_duration u = None ->
        audioDurationMs u (AudioTimeout d :: rest) = Some (Fin 5000)).
Proof.
  intros H.
  specialize (H {| f_name := "song.wav"; r_url := "blob:song";
                   r_key := None; r_duration := None |}
                (Fin 3) [AudioLoaded (Fin 3)] eq_refl).
  vm_compute in H. discriminate H.
Qed.

(** C3: when the probe reports audio and the two dedicated rows coincide,
    the companion audio goes to [max (videoRow + 1) maxRows]; the two rows
    differ, and the track count after the branch exceeds both. *)
Theorem companion_audio_row_distinct
        (s : storeView) (u : upload) (m : meta) (audioThrows : bool) :
  hasAudio m = true ->
  getDedicatedAudioTrackRow s = getDedicatedVideoTrackRow s ->
  exists va aa rows msgs,
    videoBranch s u (Resolved m) false audioThrows
    = Some {| maxRowsAfter := rows;
              calls := [HandleVideoUploadFromUrl va; AddExistingAudio aa];
              toasts := msgs |}
    /\ v_row va = getDedicatedVideoTrackRow s
    /\ a_row aa = Z.max (getDedicatedVideoTrackRow s + 1) (maxRows s)
    /\ a_row aa <> v_row va
    /\ (Z.max (v_row va) (a_row aa) + 1 <= rows)%Z.
Proof.
  intros Ha Hrow. unfold videoBranch, videoMetadata. rewrite Ha.
  do 4 eexists. split; [reflexivity |]. simpl.
  unfold videoRowsAfter, companionRow, grow. rewrite Hrow, Z.eqb_refl. simpl.
  repeat split; try lia.
  repeat match goal with
         | |- context [(?a >=? ?b)%Z] => destruct (Z.geb_spec a b)
         end; lia.
Qed.

Lemma companion_audio_row_distinct_witness :
  exists va aa rows msgs,
    videoBranch
      {| maxRows := 1; getDedicatedVideoTrackRow := 0;
         getDedicatedAudioTrackRow := 0;
         getLastVideoEndTime := Fin 0; getLastAudioEndTime := Fin 0 |}
      {| f_name := "clip.mp4"; r_url := "blob:clip"; r_key := None;
         r_duration := None |}
      (Resolved {| durationMs := Fin 8000; hasAudio := true |}) false false
    = Some {| maxRowsAfter := rows;
              calls := [HandleVideoUploadFromUrl va; AddExistingAudio aa];
              toasts := msgs |}
    /\ v_row va = 0%Z
    /\ a_row aa = 1%Z
    /\ a_row aa <> v_row va
    /\ (Z.max (v_row va) (a_row aa) + 1 <= rows)%Z.
Proof.
  exact (companion_audio_row_distinct
           {| maxRows := 1; getDedicatedVideoTrackRow := 0;
              getDedicatedAudioTrackRow := 0;
              getLastVideoEndTime := Fin 0; getLastAudioEndTime := Fin 0 |}
           {| f_name := "clip.mp4"; r_url := "blob:clip"; r_key := None;
              r_duration := None |}
           {| durationMs := Fin 8000; hasAudio := true |} false
           eq_refl eq_refl).
Defined.

(** C4: when the probe reports audio, the branch asks for the video and then
    for its companion audio, and the audio request carries the start time
    and the duration of the video request. *)
Theorem companion_audio_aligned
        (s : storeView) (u : upload) (m : meta) (audioThrows : bool) :
  hasAudio m = true ->
  exists va aa rows msgs,
    videoBranch s u (Resolved m) false audioThrows
    = Some {| maxRowsAfter := rows;
              calls := [HandleVideoUploadFromUrl va; AddExistingAudio aa];
              toasts := msgs |}
    /\ a_startTime aa = v_startTime va
    /\ a_duration aa = v_duration va
    /\ a_durationMs aa = v_duration va
    /\ v_duration va = durationMs m
    /\ v_startTime va = getLastVideoEndTime s.
Proof.
  intros Ha. unfold videoBranch, videoMetadata. rewrite Ha.
  do 4 eexists. split; [reflexivity |]. simpl. repeat split.
Qed.

Lemma companion_audio_aligned_witness :
  exists va aa rows msgs,
    videoBranch
      {| maxRows := 3; getDedicatedVideoTrackRow := 0;
         getDedicatedAudioTrackRow := 1;
         getLastVideoEndTime := Fin 12000; getLastAudioEndTime := Fin 4000 |}
      {| f_name := "clip.mp4"; r_url := "blob:clip"; r_key := None;
         r_duration := None |}
      (Resolved {| durationMs := Fin 5000; hasAudio := true |}) false false
    = Some {| maxRowsAfter := rows;
              calls := [HandleVideoUploadFromUrl va; AddExistingAudio aa];
              toasts := msgs |}
    /\ a_startTime aa = v_startTime va
    /\ a_duration aa = v_duration va
    /\ a_durationMs aa = v_duration va
    /\ v_duration va = Fin 5000
    /\ v_startTime va = Fin 12000.
Proof.
  exact (companion_audio_aligned
           {| maxRows := 3; getDedicatedVideoTrackRow := 0;
              getDedicatedAudioTrackRow := 1;
              getLastVideoEndTime := Fin 12000; getLastAudioEndTime := Fin 4000 |}
           {| f_name := "clip.mp4"; r_url := "blob:clip"; r_key := None;
              r_duration := None |}
           {| durationMs := Fin 5000; hasAudio := true |} false eq_refl).
Defined.

(** Whatever the probe answered and whichever store call failed, an audio
    request of the video branch agrees with its video request. *)
Lemma video_branch_requests_agree
      (s : storeView) (u : upload) (probe : outcome meta)
      (videoThrows audioThrows : bool) (p : placed)
      (va : videoArgs) (aa : audioArgs) :
  videoBranch s u probe videoThrows audioThrows = Some p ->
  In va (videoCalls (calls p)) -> In aa (audioCalls (calls p)) ->
  a_startTime aa = v_startTime va /\ a_duration aa = v_duration va.
Proof.
  unfold videoBranch.
  destruct (videoMetadata u probe) as [[d h] |]; [| discriminate].
  destruct videoThrows; [| destruct h]; intros E; inversion E; subst; simpl;
    intros Hv Ha; try contradiction.
  destruct Hv as [<- | []]. destruct Ha as [<- | []]. split; reflexivity.
Qed.

End DropFacts.

(** ** Ghost interaction state *)

Section GhostFacts.

Import Ghost.
Local Open Scope Q_scope.

Lemma resetGhostState_cleared (g : GhostState) :
  cleared (resetGhostState g) /\ alignmentLines (resetGhostState g) = [].
Proof. unfold cleared. simpl. repeat split. Qed.

(** The full reset is idempotent. *)
Lemma resetGhostState_idempotent (g : GhostState) :
  resetGhostState (resetGhostState g) = resetGhostState g.
Proof. reflexivity. Qed.

(** C9: with the pointer outside the grid, both global handlers do the
    same. During a file or gallery drag they reset the whole ghost state:
    every flag false, every payload empty. Otherwise they set
    [ghostElement] to null when [isDragging] is set and empty
    [multiGhostElements] when [isMultiDragging] is set, and change no flag
    and no other payload. *)
Theorem leaving_bounds_resets_or_clears
        (gridRect : Rect) (rowContainers : list (Rect * Z))
        (overlays : list Compat.overlay) (maxTime : Q)
        (e : PointerEvent) (g : GhostState) :
  isOverGrid gridRect e = false ->
  let g' := handleGlobalMouseMove (Some gridRect) e g in
  handleGlobalDragOver (Some gridRect) rowContainers overlays maxTime e g
  = (g', None)
  /\ (isFileDragging g = true \/ isGalleryDragging g = true ->
      g' = resetGhostState g /\ cleared g' /\ alignmentLines g' = [])
  /\ (isFileDragging g = false -> isGalleryDragging g = false ->
      sameFlags g g' /\ sameOtherPayloads g g'
      /\ ghostElement g' = (if isDragging g then None else ghostElement g)
      /\ multiGhostElements g'
         = (if isMultiDragging g then [] else multiGhostElements g)).
Proof.
  intros Hout. unfold handleGlobalMouseMove, handleGlobalDragOver.
  rewrite Hout. cbv [negb]. split; [reflexivity |]. split.
  - intros Hdrag.
    assert (E : leaveGrid g = resetGhostState g).
    { unfold leaveGrid. destruct Hdrag as [H | H]; rewrite H;
        [reflexivity | rewrite orb_true_r; reflexivity]. }
    rewrite E. split; [reflexivity |]. apply resetGhostState_cleared.
  - intros Hf Hg. unfold leaveGrid, sameFlags, sameOtherPayloads.
    rewrite Hf, Hg. cbv [orb].
    destruct (isDragging g) eqn:D; destruct (isMultiDragging g) eqn:M;
      cbn; rewrite ?M, ?D; cbn; rewrite ?Hf, ?Hg, ?D, ?M;
      repeat split; reflexivity.
Qed.

Lemma leaving_bounds_resets_or_clears_witness :
  let ghost := {| left := 10; width := 5; row := 2; elementType := "video";
                  canPush := false; isIncompatible := false |} in
  let g := {| isDragging := true; ghostElement := Some ghost;
              isIncompatibleRow := false;
              isResizing := false; resizeGhostElement := None;
              isMultiDragging := false; multiGhostElements := [ghost];
              isGalleryDragging := false; galleryGhostElement := None;
              isFileDragging := false; fileGhostElement := None;
              alignmentLines := []; ghostMarkerPosition := Some 40 |} in
  let gridRect := {| r_left := 0; r_right := 800; r_top := 100; r_bottom := 300 |} in
  let e := {| clientX := 900; clientY := 150; hasFiles := false;
              overTimelineRow := false; itemType := None |} in
  let g' := handleGlobalMouseMove (Some gridRect) e g in
  isDragging g' = true /\ ghostElement g' = None
  /\ multiGhostElements g' = [ghost].
Proof.
  intros ghost g gridRect e g'.
  destruct (leaving_bounds_resets_or_clears gridRect [] [] 60000 e g eq_refl)
    as [_ [_ Hclear]].
  destruct (Hclear eq_refl eq_refl) as [[Hd _] [_ [Hg Hm]]].
  split; [exact Hd | split; [exact Hg | exact Hm]].
Defined.

(** While the grid is not mounted the handlers leave the state alone. *)
Lemma unmounted_grid_is_idle (e : PointerEvent) (g : GhostState) :
  handleGlobalMouseMove None e g = g.
Proof. reflexivity. Qed.

End GhostFacts.

(** ** Dropped files *)

Section FilesFacts.

Import Files.

Lemma inferUploadCategory_values (f : file) (c : string) :
  inferUploadCategory f = Some c ->
  c = "image" \/ c = "video" \/ c = "audio".
Proof.
  unfold inferUploadCategory.
  repeat match goal with
         | |- context [if ?b then _ else _] => destruct b
         end;
    intros H; inversion H; auto.
Qed.

Lemma inferUploadCategory_none (f : file) :
  inferUploadCategory f = None <->
  isMediaMime (toLowerCase (orEmpty (type f))) = false
  /\ matchesExt imageExts (toLowerCase (orEmpty (name f))) = false
  /\ matchesExt videoExts (toLowerCase (orEmpty (name f))) = false
  /\ matchesExt audioExts (toLowerCase (orEmpty (name f))) = false.
Proof.
  unfold inferUploadCategory, isMediaMime.
  destruct (String.prefix "image/" _), (String.prefix "video/" _),
    (String.prefix "audio/" _), (matchesExt imageExts _),
    (matchesExt videoExts _), (matchesExt audioExts _);
    simpl; split; intros H; try discriminate H; auto;
    destruct H as (H1 & H2 & H3 & H4); discriminate.
Qed.

(** An extension the filter knows is one of an image, a video or an audio
    pattern; the only one of those the filter does not know is [flv]. *)
Lemma dropExts_covered (n : string) :
  matchesExt dropExts n = true ->
  matchesExt imageExts n || matchesExt videoExts n || matchesExt audioExts n
  = true.
Proof.
  unfold matchesExt at 1. intros H.
  apply existsb_exists in H. destruct H as (e & Hin & He).
  unfold dropExts in Hin. simpl in Hin.
  unfold matchesExt, imageExts, videoExts, audioExts. cbn [existsb].
  repeat (destruct Hin as [<- | Hin];
          [rewrite He; rewrite ?orb_true_r; reflexivity |]).
  contradiction.
Qed.

Lemma exts_covered_by_drop_or_flv (n : string) :
  matchesExt imageExts n || matchesExt videoExts n || matchesExt audioExts n
  = true ->
  matchesExt dropExts n = true \/ endsWith ".flv" n = true.
Proof.
  intros H. apply orb_true_iff in H. destruct H as [H | H];
    [apply orb_true_iff in H; destruct H as [H | H] |];
    unfold matchesExt in H; apply existsb_exists in H;
    destruct H as (e & Hin & He); simpl in Hin;
    unfold matchesExt, dropExts; cbn [existsb];
    repeat (destruct Hin as [<- | Hin];
            [first [right; exact He
                   | left; rewrite He; rewrite ?orb_true_r; reflexivity] |]);
    contradiction.
Qed.

(** X1. Every file the filter of [handleDrop] lets through has a category:
    [inferUploadCategory] knows it, and with no answer from [detectCategory]
    the loop gives it one of the three upload types. *)
Theorem filtered_files_have_upload_type (f : file) :
  isMediaFile f = true ->
  inferUploadCategory f <> None
  /\ (uploadType None f = Some "image" \/ uploadType None f = Some "video"
      \/ uploadType None f = Some "audio").
Proof.
  intros H.
  assert (Hc : inferUploadCategory f <> None).
  { intros Hn. apply inferUploadCategory_none in Hn.
    destruct Hn as (Hm & Hi & Hv & Ha).
    unfold isMediaFile in H. rewrite Hm in H. simpl in H.
    apply dropExts_covered in H. rewrite Hi, Hv, Ha in H. discriminate H. }
  split; [exact Hc |].
  destruct (inferUploadCategory f) as [c |] eqn:E; [| congruence].
  unfold uploadType, category. rewrite E.
  destruct (inferUploadCategory_values f c E) as [-> | [-> | ->]]; simpl; auto.
Qed.

Lemma filtered_files_have_upload_type_witness :
  inferUploadCategory (mkFile (Some "") (Some "Holiday.JPEG")) <> None
  /\ (uploadType None (mkFile (Some "") (Some "Holiday.JPEG")) = Some "image"
      \/ uploadType None (mkFile (Some "") (Some "Holiday.JPEG")) = Some "video"
      \/ uploadType None (mkFile (Some "") (Some "Holiday.JPEG")) = Some "audio").
Proof.
  apply (filtered_files_have_upload_type (mkFile (Some "") (Some "Holiday.JPEG"))).
  reflexivity.
Defined.

(** X2. The converse fails in one way only: a file that has a category but
    is dropped by the filter is a video by its extension [.flv], which the
    pattern of the filter does not list. *)
Theorem categorised_but_filtered_out_is_flv (f : file) :
  inferUploadCategory f <> None ->
  isMediaFile f = false ->
  inferUploadCategory f = Some "video"
  /\ endsWith ".flv" (toLowerCase (orEmpty (name f))) = true.
Proof.
  intros Hc Hf. unfold isMediaFile in Hf.
  apply orb_false_iff in Hf. destruct Hf as [Hm Hd].
  set (n := toLowerCase (orEmpty (name f))) in *.
  assert (He : matchesExt imageExts n || matchesExt videoExts n
               || matchesExt audioExts n = true).
  { destruct (matchesExt imageExts n) eqn:Hi; [reflexivity |].
    destruct (matchesExt videoExts n) eqn:Hv; [reflexivity |].
    destruct (matchesExt audioExts n) eqn:Ha; [reflexivity |].
    exfalso. apply Hc. apply inferUploadCategory_none. auto. }
  destruct (exts_covered_by_drop_or_flv n He) as [H | H]; [congruence |].
  split; [| exact H].
  assert (Hi : matchesExt imageExts n = false).
  { destruct (matchesExt imageExts n) eqn:Hi; [| reflexivity].
    assert (Hx : matchesExt dropExts n = true); [| congruence].
    unfold matchesExt in Hi. apply existsb_exists in Hi.
    destruct Hi as (e & Hin & Hee). simpl in Hin.
    unfold matchesExt, dropExts. cbn [existsb].
    repeat (destruct Hin as [<- | Hin];
            [rewrite Hee; rewrite ?orb_true_r; reflexivity |]).
    contradiction. }
  assert (Hv : matchesExt videoExts n = true).
  { unfold matchesExt, videoExts. cbn [existsb append]. rewrite H.
    rewrite ?orb_true_r. reflexivity. }
  unfold isMediaMime in Hm.
  apply orb_false_iff in Hm. destruct Hm as [Hm Himg].
  apply orb_false_iff in Hm. destruct Hm as [Haud Hvid].
  unfold inferUploadCategory. fold n. rewrite Himg, Hvid, Haud, Hi, Hv.
  reflexivity.
Qed.

Lemma categorised_but_filtered_out_is_flv_witness :
  inferUploadCategory (mkFile (Some "") (Some "intro.flv")) = Some "video"
  /\ endsWith ".flv" (toLowerCase (orEmpty (Some "intro.flv"))) = true.
Proof.
  apply (categorised_but_filtered_out_is_flv (mkFile (Some "") (Some "intro.flv"))).
  - discriminate.
  - reflexivity.
Defined.

(** X3. Whatever item lights the drop zone in [handleDragOver] is a file
    that the filter of [handleDrop] accepts under the same MIME type,
    whatever its name; an item that is not a file never reaches the call. *)
Theorem highlighted_items_pass_the_filter (it : dragItem) (n : option string) :
  handleDragOver (Some it) = Some true ->
  kind it = "file" /\ isMediaFile (mkFile (itemType it) n) = true.
Proof.
  unfold handleDragOver.
  destruct (String.eqb (kind it) "file") eqn:K; simpl; [| discriminate].
  intros H.
  assert (Hm : isMediaMime (toLowerCase (orEmpty (itemType it))) = true)
    by congruence.
  split.
  - apply String.eqb_eq. exact K.
  - unfold isMediaFile. simpl. rewrite Hm. reflexivity.
Qed.

Lemma highlighted_items_pass_the_filter_witness :
  isMediaFile (mkFile (Some "Video/MP4") (Some "clip")) = true.
Proof.
  exact (proj2 (highlighted_items_pass_the_filter
                  (mkDragItem "file" (Some "Video/MP4")) (Some "clip") eq_refl)).
Defined.

End FilesFacts.

Section TriageFacts.

Import Files.




End TriageFacts.

(** ** Track compatibility, beyond the kind set *)

Section CompatMoreFacts.

Import Compat.

Ltac string_cases :=
  repeat match goal with
         | |- context [String.eqb ?x ?y] =>
             destruct (String.eqb_spec x y); subst; cbn [orb andb]
         end.

(** X5. [areTypesCompatible] is symmetric, for any two type strings. *)
Theorem areTypesCompatible_symmetric (type1 type2 : string) :
  areTypesCompatible type1 type2 = areTypesCompatible type2 type1.
Proof.
  unfold areTypesCompatible, videoTypes, audioTypes, imageTypes.
  cbn [includes]. string_cases; try reflexivity; congruence.
Qed.

(** X6. Two types share a row in exactly three cases: both are text; neither
    is text and one is animation; both are of the image family. A type the
    rules do not know shares a row with animation only, not even with
    itself. *)
Theorem areTypesCompatible_characterised (type1 type2 : string) :
  areTypesCompatible type1 type2 = true <->
  (type1 = "text" /\ type2 = "text")
  \/ (type1 <> "text" /\ type2 <> "text"
      /\ (type1 = "animation" \/ type2 = "animation"
          \/ (imageFamily type1 /\ imageFamily type2))).
Proof.
  unfold areTypesCompatible, videoTypes, audioTypes, imageTypes, imageFamily.
  cbn [includes]. string_cases; split; intros H; try discriminate H; try reflexivity;
    try solve [intuition congruence].
Qed.

End CompatMoreFacts.

(** ** Media metadata probe: what it can answer *)

Section ProbeAnswerFacts.

Import Num Probe ProbeAnswers.

Lemma valid_duration_positive (d : num) :
  negb (truthy d) || le0 d = false -> gt0 d = true.
Proof.
  destruct d as [| q |]; simpl; try discriminate; [| reflexivity].
  intros H. apply orb_false_iff in H. destruct H as [_ H]. rewrite H.
  reflexivity.
Qed.

Lemma pending_removeTimer_sub (cb cb' : callback) (ts : list (callback * Q)) :
  existsb (fun t => callback_eqb (fst t) cb') (removeTimer cb ts) = true ->
  existsb (fun t => callback_eqb (fst t) cb') ts = true.
Proof.
  induction ts as [| [c ms] ts IH]; simpl; [discriminate |].
  destruct (callback_eqb c cb); simpl.
  - intros H. rewrite H. apply orb_true_r.
  - intros H. apply orb_true_iff in H. destruct H as [H | H].
    + rewrite H. reflexivity.
    + rewrite (IH H). apply orb_true_r.
Qed.

(** What a detection does to an unresolved closure. *)
Lemma detect_effect (v : video) (st : state) :
  resolved st = false -> gt0 (duration v) = true ->
  resolved (detectAudioAndResolve v st) = true
  /\ promise (detectAudioAndResolve v st)
     = settle (promise st)
         (Resolved {| durationMs := mul1000 (duration v); hasAudio := true |}).
Proof.
  intros R Hd. destruct (gt0_valid _ Hd) as (Ht & Hl & Ho).
  unfold detectAudioAndResolve, resolve, cleanup, clearTimeout. simpl.
  repeat (rewrite ?R, ?Ho, ?Hd; simpl).
  destruct (mozHasAudio v || webkitHasAudio v || hasAudioTracks v
            || audioContextCheck v); split; reflexivity.
Qed.

Lemma answer_detect (v : video) :
  gt0 (duration v) = true ->
  answer {| durationMs := mul1000 (duration v); hasAudio := true |}.
Proof.
  intros Hd. right. split; [reflexivity |]. exists (duration v). auto.
Qed.

Lemma answer_settle (p : outcome meta) (m m' : meta) :
  (forall x, p = Resolved x -> answer x) -> answer m' ->
  settle p (Resolved m') = Resolved m -> answer m.
Proof.
  intros Hp Hm'. destruct p; simpl; intros H.
  - inversion H. subst. exact Hm'.
  - apply Hp. exact H.
  - discriminate.
Qed.

Lemma onLoaded_settledBehindRecheck (url : string) (v : video) (st : state) :
  settledBehindRecheck st -> settledBehindRecheck (onLoaded url v st).
Proof.
  intros H. unfold onLoaded.
  destruct (resolved st) eqn:R; [exact H |].
  destruct H as [Hr Ha].
  destruct (negb (truthy (duration v)) || le0 (duration v)) eqn:V.
  - split.
    + unfold pending, setTimeout. simpl. rewrite existsb_app. simpl.
      rewrite orb_false_r. intros H. apply Hr. exact H.
    + exact Ha.
  - apply valid_duration_positive in V.
    destruct (detect_effect v st R V) as [Hres Hprom].
    assert (G : forall ms, settledBehindRecheck
                             (setTimeout CbRecheck ms (detectAudioAndResolve v st))).
    { intros ms. split.
      - intros _. exact Hres.
      - intros m. unfold setTimeout. simpl. rewrite Hprom.
        apply answer_settle; [exact Ha | apply answer_detect; exact V]. }
    destruct (isBlob url); apply G.
Qed.

Lemma observe_settledBehindRecheck (st st' : state) :
  resolved st' = resolved st -> promise st' = promise st ->
  (pending CbRecheck st' = true -> pending CbRecheck st = true) ->
  settledBehindRecheck st -> settledBehindRecheck st'.
Proof.
  intros Hr Hp Ht [H1 H2]. split.
  - intros H. rewrite Hr. apply H1. apply Ht. exact H.
  - intros m. rewrite Hp. apply H2.
Qed.

Lemma expire_settledBehindRecheck (cb : callback) (st : state) :
  settledBehindRecheck st -> settledBehindRecheck (expire cb st).
Proof.
  apply observe_settledBehindRecheck; try reflexivity.
  unfold pending, expire. simpl. apply pending_removeTimer_sub.
Qed.

Lemma fallback_settledBehindRecheck (st st' : state) :
  resolved st' = true ->
  promise st' = settle (promise st) (Resolved fallback) ->
  settledBehindRecheck st -> settledBehindRecheck st'.
Proof.
  intros Hr Hp [H1 H2]. split.
  - intros _. exact Hr.
  - intros m. rewrite Hp. apply answer_settle; [exact H2 | left; reflexivity].
Qed.

Lemma step_settledBehindRecheck (url : string) (st : state) (e : event) :
  settledBehindRecheck st -> settledBehindRecheck (step url st e).
Proof.
  intros H. destruct e as [v | v | | cb v]; unfold step.
  - destruct (onLoadedListener st); [| exact H].
    apply onLoaded_settledBehindRecheck.
    revert H. apply observe_settledBehindRecheck; auto.
  - destruct (onCanPlayThroughListener st); [| exact H].
    assert (H' : settledBehindRecheck (detachCanPlayThrough st))
      by (revert H; apply observe_settledBehindRecheck; auto).
    unfold onCanPlayThrough.
    destruct (negb (resolved (detachCanPlayThrough st))
              && Nat.leb 2 (readyState v)); [| exact H'].
    apply onLoaded_settledBehindRecheck. exact H'.
  - destruct (onErrorListener st); [| exact H].
    assert (H' : settledBehindRecheck (detachError st))
      by (revert H; apply observe_settledBehindRecheck; auto).
    unfold onError. destruct (resolved (detachError st)) eqn:R; [exact H' |].
    revert H'. apply fallback_settledBehindRecheck.
    + unfold resolve, cleanup, clearTimeout. simpl.
      simpl in R. rewrite R. reflexivity.
    + unfold resolve, cleanup, clearTimeout. simpl.
      simpl in R. rewrite R. reflexivity.
  - destruct (pending cb st) eqn:P; [| exact H].
    assert (H' : settledBehindRecheck (expire cb st))
      by (apply expire_settledBehindRecheck; exact H).
    destruct cb.
    + unfold onTimeout.
      destruct (resolved (expire CbTimeout st)) eqn:R; simpl; [exact H' |].
      revert H'. apply fallback_settledBehindRecheck.
      * unfold resolve, cleanup. simpl. simpl in R. rewrite R. reflexivity.
      * unfold resolve, cleanup. simpl. simpl in R. rewrite R. reflexivity.
    + unfold onWaitDuration.
      destruct (resolved (expire CbWaitDuration st)) eqn:R; simpl; [exact H' |].
      destruct (gt0 (duration v)) eqn:Hd; [| exact H'].
      destruct (detect_effect v _ R Hd) as [Hres Hprom]. split.
      * intros _. exact Hres.
      * intros m. rewrite Hprom.
        apply answer_settle; [apply H' | apply answer_detect; exact Hd].
    + (* the second look: its timer is pending, so the flag is up *)
      unfold onRecheck.
      assert (R : resolved (expire CbRecheck st) = true)
        by (simpl; apply H; exact P).
      rewrite R. simpl. exact H'.
Qed.

Lemma start_settledBehindRecheck url timeoutMs srcThrows :
  settledBehindRecheck (start url timeoutMs srcThrows).
Proof.
  unfold start. destruct (unset url).
  - split; simpl; [discriminate |].
    intros m H. inversion H. left. reflexivity.
  - destruct srcThrows.
    + split; simpl; [discriminate |].
      intros m H. inversion H. left. reflexivity.
    + split; simpl; [discriminate | discriminate].
Qed.

Lemma run_settledBehindRecheck url timeoutMs srcThrows trace :
  settledBehindRecheck (run url timeoutMs srcThrows trace).
Proof.
  unfold run. generalize (start_settledBehindRecheck url timeoutMs srcThrows).
  generalize (start url timeoutMs srcThrows).
  induction trace as [| e trace IH]; intros st H; simpl; [exact H |].
  apply IH. apply step_settledBehindRecheck. exact H.
Qed.



(** X8. The second look at the audio signals that [onLoaded] schedules
    200 or 300 ms later never does anything: in every state the probe can
    reach, the expiry of that timer leaves the promise, the [resolved] flag
    and the listeners as they are. *)
Theorem probe_second_look_is_idle
        (url : option string) (timeoutMs : option Q) (srcThrows : bool)
        (trace : list event) (v : video) :
  let st := run url timeoutMs srcThrows trace in
  let st' := step (urlOf url) st (Fire CbRecheck v) in
  promise st' = promise st /\ resolved st' = resolved st
  /\ onLoadedListener st' = onLoadedListener st
  /\ onCanPlayThroughListener st' = onCanPlayThroughListener st
  /\ onErrorListener st' = onErrorListener st.
Proof.
  intros st st'. subst st'. unfold step.
  destruct (pending CbRecheck st) eqn:P; [| repeat split].
  assert (R : resolved st = true)
    by (apply (proj1 (run_settledBehindRecheck url timeoutMs srcThrows trace));
        exact P).
  unfold onRecheck. simpl. rewrite R. simpl. repeat split. exact R.
Qed.

(** X9. The first settlement wins: once the probe has resolved, no later
    event changes its answer. *)
Theorem probe_answer_is_final
        (url : option string) (timeoutMs : option Q) (srcThrows : bool)
        (pre post : list event) (m : meta) :
  getVideoMetadataFromUrl url timeoutMs srcThrows pre = Resolved m ->
  getVideoMetadataFromUrl url timeoutMs srcThrows (pre ++ post) = Resolved m.
Proof.
  unfold getVideoMetadataFromUrl, run. intros H.
  rewrite fold_left_app. apply (runFrom_keeps_resolved (urlOf url) post).
  exact H.
Qed.

Lemma probe_answer_is_final_witness :
  getVideoMetadataFromUrl (Some "blob:clip") None false
    ([MediaError]
     ++ [LoadedMetadata {| duration := Fin 8; mozHasAudio := true;
                           webkitAudioDecodedByteCount := None;
                           audioTracks := None; readyState := 4 |}])
  = Resolved {| durationMs := Fin 10000; hasAudio := false |}.
Proof.
  exact (probe_answer_is_final (Some "blob:clip") None false [MediaError]
           [LoadedMetadata {| duration := Fin 8; mozHasAudio := true;
                              webkitAudioDecodedByteCount := None;
                              audioTracks := None; readyState := 4 |}]
           fallback eq_refl).
Defined.

End ProbeAnswerFacts.

(** ** Drop pipeline: rows, requests and the probes behind them *)

Section DropMoreFacts.

Import Num Probe ProbeAnswers Drop.

Lemma grow_covers (row rows : Z) :
  (rows <= grow row rows /\ row < grow row rows)%Z.
Proof. unfold grow. destruct (Z.geb_spec row rows); lia. Qed.

(** X10. Neither branch ever shrinks the track count, and every request it
    makes names a row below the track count it leaves. *)
Theorem branches_grow_tracks_over_rows
        (s : storeView) (u : upload) (trace : list audioEvent)
        (probe : outcome meta) (callThrows videoThrows audioThrows : bool)
        (p : placed) :
  audioBranch s u trace callThrows = Some p
  \/ videoBranch s u probe videoThrows audioThrows = Some p ->
  (maxRows s <= maxRowsAfter p)%Z
  /\ (forall va, In va (videoCalls (calls p)) -> (v_row va < maxRowsAfter p)%Z)
  /\ (forall aa, In aa (audioCalls (calls p)) -> (a_row aa < maxRowsAfter p)%Z).
Proof.
  intros [H | H].
  - unfold audioBranch in H.
    destruct (audioDurationMs u trace); [| discriminate].
    inversion H; subst; clear H. simpl.
    pose proof (grow_covers (getDedicatedAudioTrackRow s) (maxRows s)).
    split; [lia | split].
    + intros va [].
    + intros aa [<- | []]. simpl. lia.
  - unfold videoBranch in H.
    destruct (videoMetadata u probe) as [[d h] |]; [| discriminate].
    pose proof (grow_covers (getDedicatedVideoTrackRow s) (maxRows s)) as G1.
    pose proof (grow_covers (companionRow s true)
                  (grow (getDedicatedVideoTrackRow s) (maxRows s))) as G2.
    assert (Hrows : (maxRows s <= videoRowsAfter s h
                     /\ getDedicatedVideoTrackRow s < videoRowsAfter s h
                     /\ (h = true -> companionRow s h < videoRowsAfter s h))%Z).
    { unfold videoRowsAfter. destruct h;
        (split; [lia | split; [lia |]]); [intros _; lia | discriminate]. }
    destruct Hrows as (R1 & R2 & R3).
    destruct videoThrows; [| destruct h]; inversion H; subst; clear H; simpl;
      repeat split; try lia;
      try (intros va [<- | []]; simpl; lia);
      try (intros aa [<- | []]; simpl; auto);
      try (intros x []).
Qed.

Lemma branches_grow_tracks_over_rows_witness :
  let s := {| maxRows := 2; getDedicatedVideoTrackRow := 4;
              getDedicatedAudioTrackRow := 4;
              getLastVideoEndTime := Fin 0; getLastAudioEndTime := Fin 0 |} in
  let u := {| f_name := "clip.mp4"; r_url := "blob:clip"; r_key := None;
              r_duration := None |} in
  exists p,
    videoBranch s u (Resolved {| durationMs := Fin 8000; hasAudio := true |})
      false false = Some p
    /\ (2 <= maxRowsAfter p)%Z.
Proof.
  intros s u. eexists. split; [reflexivity |].
  refine (proj1 (branches_grow_tracks_over_rows s u []
                   (Resolved {| durationMs := Fin 8000; hasAudio := true |})
                   false false false _ (or_intror eq_refl))).
Defined.

(** X11. When the store takes the video, the video branch asks for the
    video first and for at most one audio after it, and the video request
    is marked [hasSeparateAudio] exactly when the audio request follows. *)
Theorem separate_audio_flag_matches_requests
        (s : storeView) (u : upload) (probe : outcome meta)
        (audioThrows : bool) (p : placed) :
  videoBranch s u probe false audioThrows = Some p ->
  exists va,
    (calls p = [HandleVideoUploadFromUrl va]
     /\ v_hasSeparateAudio va = false)
    \/ (exists aa,
           calls p = [HandleVideoUploadFromUrl va; AddExistingAudio aa]
           /\ v_hasSeparateAudio va = true
           /\ a_base64Audio aa = v_url va /\ a_name aa = v_title va).
Proof.
  unfold videoBranch.
  destruct (videoMetadata u probe) as [[d h] |]; [| discriminate].
  destruct h; intros H; inversion H; subst; clear H; simpl;
    eexists; [right; eexists | left]; repeat split.
Qed.

Lemma separate_audio_flag_matches_requests_witness :
  let s := {| maxRows := 1; getDedicatedVideoTrackRow := 0;
              getDedicatedAudioTrackRow := 1;
              getLastVideoEndTime := Fin 0; getLastAudioEndTime := Fin 0 |} in
  let u := {| f_name := "mute.mp4"; r_url := "blob:mute"; r_key := None;
              r_duration := Some (Fin 3) |} in
  exists p,
    videoBranch s u (Rejected "probe") false false = Some p
    /\ exists va,
      (calls p = [HandleVideoUploadFromUrl va]
       /\ v_hasSeparateAudio va = false)
      \/ (exists aa,
             calls p = [HandleVideoUploadFromUrl va; AddExistingAudio aa]
             /\ v_hasSeparateAudio va = true
             /\ a_base64Audio aa = v_url va /\ a_name aa = v_title va).
Proof.
  intros s u. eexists. split; [reflexivity |].
  refine (separate_audio_flag_matches_requests s u (Rejected "probe") false
            _ eq_refl).
Defined.

(** X12. With the probe that the branch really awaits, the duration the
    upload reported is never used for a video: two uploads that differ in it
    only lead to the same requests, whatever happens to the probe. *)
Theorem video_ignores_reported_duration
        (s : storeView) (u u' : upload)
        (url : option string) (timeoutMs : option Q) (srcThrows : bool)
        (trace : list event) (videoThrows audioThrows : bool) :
  f_name u' = f_name u -> r_url u' = r_url u -> r_key u' = r_key u ->
  videoBranch s u' (getVideoMetadataFromUrl url timeoutMs srcThrows trace)
    videoThrows audioThrows
  = videoBranch s u (getVideoMetadataFromUrl url timeoutMs srcThrows trace)
      videoThrows audioThrows.
Proof.
  intros Hn Hu Hk.
  destruct (getVideoMetadataFromUrl url timeoutMs srcThrows trace)
    as [| m | r] eqn:E.
  - reflexivity.
  - unfold videoBranch, videoMetadata. rewrite Hn, Hu, Hk. reflexivity.
  - exfalso.
    revert E. unfold getVideoMetadataFromUrl, run.
    apply runFrom_never_rejects. apply start_never_rejected.
Qed.

Lemma video_ignores_reported_duration_witness :
  let s := {| maxRows := 1; getDedicatedVideoTrackRow := 0;
              getDedicatedAudioTrackRow := 1;
              getLastVideoEndTime := Fin 0; getLastAudioEndTime := Fin 0 |} in
  videoBranch s
    {| f_name := "a.mp4"; r_url := "https://cdn.example/a.mp4"; r_key := None;
       r_duration := Some (Fin 42) |}
    (getVideoMetadataFromUrl (Some "https://cdn.example/a.mp4") None false
       [MediaError]) false false
  = videoBranch s
      {| f_name := "a.mp4"; r_url := "https://cdn.example/a.mp4"; r_key := None;
         r_duration := None |}
      (getVideoMetadataFromUrl (Some "https://cdn.example/a.mp4") None false
         [MediaError]) false false.
Proof.
  intros s.
  exact (video_ignores_reported_duration s
           {| f_name := "a.mp4"; r_url := "https://cdn.example/a.mp4";
              r_key := None; r_duration := None |}
           {| f_name := "a.mp4"; r_url := "https://cdn.example/a.mp4";
              r_key := None; r_duration := Some (Fin 42) |}
           (Some "https://cdn.example/a.mp4") None false [MediaError]
           false false eq_refl eq_refl eq_refl).
Defined.

Lemma gt0_mul1000 (d : num) : gt0 d = true -> gt0 (mul1000 d) = true.
Proof.
  destruct d as [| q |]; simpl; auto.
  intros H. destruct (Qle_bool q 0) eqn:E; [discriminate |].
  destruct (Qle_bool (q * 1000) 0) eqn:E'; [| reflexivity].
  apply Qle_bool_iff in E'.
  assert (Hq : (q <= 0)%Q).
  { unfold Qle in *. simpl in *. lia. }
  apply Qle_bool_iff in Hq. congruence.
Qed.

(** X13. A video that reaches the timeline through the probe has a positive
    duration, and it is placed without a companion audio only with the
    default of 10000 ms: a video whose duration was measured always gets
    one. *)
Theorem placed_video_duration
        (s : storeView) (u : upload)
        (url : option string) (timeoutMs : option Q) (srcThrows : bool)
        (trace : list event) (videoThrows audioThrows : bool)
        (p : placed) (va : videoArgs) :
  videoBranch s u (getVideoMetadataFromUrl url timeoutMs srcThrows trace)
    videoThrows audioThrows = Some p ->
  In va (videoCalls (calls p)) ->
  gt0 (v_duration va) = true
  /\ (v_hasSeparateAudio va = false -> v_duration va = Fin 10000).
Proof.
  destruct (getVideoMetadataFromUrl url timeoutMs srcThrows trace)
    as [| m | r] eqn:E.
  - discriminate.
  - pose proof (proj2 (run_settledBehindRecheck url timeoutMs srcThrows trace)
                  m E) as Hm.
    unfold videoBranch, videoMetadata.
    assert (G : gt0 (durationMs m) = true
                /\ (hasAudio m = false -> durationMs m = Fin 10000)).
    { destruct Hm as [-> | [Ha [d [Hd Hms]]]].
      - split; reflexivity.
      - split; [rewrite Hms; apply gt0_mul1000; exact Hd | congruence]. }
    destruct videoThrows; [| destruct (hasAudio m) eqn:Ha];
      intros H; inversion H; subst; clear H; simpl;
      intros [<- | Hin]; simpl; try contradiction; try rewrite Ha; exact G.
  - exfalso. revert E. unfold getVideoMetadataFromUrl, run.
    apply runFrom_never_rejects. apply start_never_rejected.
Qed.

Lemma placed_video_duration_witness :
  let s := {| maxRows := 1; getDedicatedVideoTrackRow := 0;
              getDedicatedAudioTrackRow := 1;
              getLastVideoEndTime := Fin 0; getLastAudioEndTime := Fin 0 |} in
  let u := {| f_name := "a.mp4"; r_url := "blob:a"; r_key := None;
              r_duration := Some (Fin 42) |} in
  exists p va,
    videoBranch s u
      (getVideoMetadataFromUrl (Some "blob:a") None false
         [Fire CbTimeout {| duration := NaN; mozHasAudio := false;
                            webkitAudioDecodedByteCount := None;
                            audioTracks := None; readyState := 0 |}])
      false false = Some p
    /\ In va (videoCalls (calls p))
    /\ gt0 (v_duration va) = true
    /\ (v_hasSeparateAudio va = false -> v_duration va = Fin 10000).
Proof.
  intros s u. eexists. eexists.
  split; [reflexivity |].
  split; [left; reflexivity |].
  refine (placed_video_duration s u (Some "blob:a") None false
            [Fire CbTimeout {| duration := NaN; mozHasAudio := false;
                               webkitAudioDecodedByteCount := None;
                               audioTracks := None; readyState := 0 |}]
            false false _ _ eq_refl (or_introl eq_refl)).
Defined.

(** X14. Without a duration from the upload, the audio a dropped file is
    placed with lasts at least 1000 ms, whether the probe resolved or
    rejected, and the request carries that value in both of its duration
    fields. *)
Theorem dropped_audio_lasts_a_second
        (s : storeView) (u : upload) (trace : list audioEvent)
        (callThrows : bool) (p : placed) (aa : audioArgs) :
  r_duration u = None ->
  audioBranch s u trace callThrows = Some p ->
  In aa (audioCalls (calls p)) ->
  atLeast1000 (a_durationMs aa) /\ a_duration aa = a_durationMs aa
  /\ a_row aa = getDedicatedAudioTrackRow s
  /\ a_startTime aa = getLastAudioEndTime s.
Proof.
  intros Hn. unfold audioBranch, audioDurationMs. rewrite Hn.
  destruct (getAudioDurationSeconds trace) as [| sec | r] eqn:E;
    [discriminate | |];
    intros H; inversion H; subst; clear H; simpl;
    intros [<- | []]; simpl; repeat split.
  - destruct (audioRunFrom_resolved trace audioStart sec) as [d ->].
    + intros x Hx. discriminate Hx.
    + exact E.
    + apply orZero_clamped.
  - unfold Qle. simpl. lia.
Qed.

Lemma dropped_audio_lasts_a_second_witness :
  let s := {| maxRows := 1; getDedicatedVideoTrackRow := 0;
              getDedicatedAudioTrackRow := 1;
              getLastVideoEndTime := Fin 0; getLastAudioEndTime := Fin 7000 |} in
  let u := {| f_name := "tick.wav"; r_url := "blob:tick"; r_key := None;
              r_duration := None |} in
  exists p aa,
    audioBranch s u [AudioLoaded (Fin (1 # 4))] false = Some p
    /\ In aa (audioCalls (calls p))
    /\ atLeast1000 (a_durationMs aa) /\ a_duration aa = a_durationMs aa
    /\ a_row aa = 1%Z /\ a_startTime aa = Fin 7000.
Proof.
  intros s u. eexists. eexists.
  split; [reflexivity |].
  split; [left; reflexivity |].
  refine (dropped_audio_lasts_a_second s u [AudioLoaded (Fin (1 # 4))] false
            _ _ eq_refl eq_refl (or_introl eq_refl)).
Defined.

Lemma audioRunFrom_app (st : audioState) (t1 t2 : list audioEvent) :
  audioRunFrom st (t1 ++ t2) = audioRunFrom (audioRunFrom st t1) t2.
Proof. unfold audioRunFrom. apply fold_left_app. Qed.

(** X15. A [loadedmetadata] or an [error] event anywhere in the trace
    settles the audio probe, and once settled it keeps its outcome: a late
    event changes nothing. *)
Theorem audio_probe_settles_once (pre post : list audioEvent) (e : audioEvent) :
  (e = AudioError \/ exists d, e = AudioLoaded d) ->
  getAudioDurationSeconds (pre ++ [e]) <> Pending
  /\ getAudioDurationSeconds (pre ++ e :: post)
     = getAudioDurationSeconds (pre ++ [e]).
Proof.
  intros He. unfold getAudioDurationSeconds.
  assert (Hs : a_promise (audioRunFrom audioStart (pre ++ [e])) <> Pending).
  { rewrite audioRunFrom_app. simpl.
    destruct (a_promise (audioRunFrom audioStart pre)) eqn:P;
      destruct He as [-> | [d ->]]; simpl; rewrite P; simpl; discriminate. }
  split; [exact Hs |].
  change (pre ++ e :: post)%list with (pre ++ [e] ++ post)%list.
  rewrite app_assoc, audioRunFrom_app.
  apply audioRunFrom_settled. exact Hs.
Qed.

Lemma audio_probe_settles_once_witness :
  getAudioDurationSeconds
    ([AudioTimeout (Fin 3)] ++ AudioError :: [AudioLoaded (Fin 3)])
  = getAudioDurationSeconds ([AudioTimeout (Fin 3)] ++ [AudioError]).
Proof.
  exact (proj2 (audio_probe_settles_once [AudioTimeout (Fin 3)]
                  [AudioLoaded (Fin 3)] AudioError (or_introl eq_refl))).
Defined.

End DropMoreFacts.

(** ** Ruler marker generator: the markers of a zoom level *)

Section RulerMoreFacts.

Import Ruler.
Local Open Scope Q_scope.

Lemma inject_nat_succ (k : nat) :
  inject_Z (Z.of_nat (S k)) == inject_Z (Z.of_nat k) + 1.
Proof. rewrite Nat2Z.inj_succ. unfold Z.succ. rewrite inject_Z_plus. reflexivity. Qed.

Lemma inject_nat_nonneg (k : nat) : 0 <= inject_Z (Z.of_nat k).
Proof. change 0 with (inject_Z 0). rewrite <- Zle_Qle. lia. Qed.

(** The time loop, from any start: marker [k] exists as long as its time
    does not pass the end, and it is the marker of that time. *)
Lemma timeLoop_spec (fuel : nat) :
  forall maxTime maxTimeSeconds intervalSeconds t ms,
    0 < intervalSeconds ->
    timeLoop fuel maxTime maxTimeSeconds intervalSeconds t = Some ms ->
    (forall k, (k < List.length ms)%nat <->
               t + inject_Z (Z.of_nat k) * intervalSeconds <= maxTimeSeconds)
    /\ (forall k m,
           nth_error ms k = Some m ->
           time m == t + inject_Z (Z.of_nat k) * intervalSeconds
           /\ m = timeMarker maxTime intervalSeconds (time m)).
Proof.
  induction fuel as [| fuel IH]; intros mt maxS i t ms Hi H; [discriminate |].
  simpl in H. destruct (Qle_bool t maxS) eqn:E.
  - destruct (timeLoop fuel mt maxS i (t + i)) as [ms' |] eqn:L;
      [| discriminate]. simpl in H. inversion H; subst ms; clear H.
    apply Qle_bool_iff in E.
    destruct (IH mt maxS i (t + i) ms' Hi L) as [IH1 IH2]. split.
    + intros [| k]; cbn [List.length].
      * change (inject_Z (Z.of_nat 0)) with 0.
        split; [intros _; lra | lia].
      * rewrite <- Nat.succ_lt_mono, IH1, inject_nat_succ. split; intros; lra.
    + intros [| k] m; cbn [nth_error].
      * intros Hm. inversion Hm; subst m. cbn [time timeMarker].
        change (inject_Z (Z.of_nat 0)) with 0.
        split; [lra | reflexivity].
      * intros Hm. destruct (IH2 k m Hm) as [Ht Hm'].
        split; [| exact Hm']. rewrite Ht, inject_nat_succ. lra.
  - inversion H; subst ms; clear H. split.
    + intros k. simpl. split; [lia |]. intros Hle. exfalso.
      assert (Hn : ~ t <= maxS).
      { intros Hc. apply Qle_bool_iff in Hc. congruence. }
      apply Hn. pose proof (inject_nat_nonneg k) as Hk.
      assert (0 <= inject_Z (Z.of_nat k) * i)
        by (apply Qmult_le_0_compat; [exact Hk | apply Qlt_le_weak; exact Hi]).
      lra.
    + intros [| k] m Hm; discriminate Hm.
Qed.

Lemma gt_false_le (x y : Q) : gt x y = false -> x <= y.
Proof.
  unfold gt. intros H. apply Qle_bool_iff.
  destruct (Qle_bool x y); [reflexivity | discriminate].
Qed.

Lemma gt_true_lt (x y : Q) : gt x y = true -> y < x.
Proof.
  unfold gt. intros H. apply Qnot_le_lt. intros Hc.
  apply Qle_bool_iff in Hc. rewrite Hc in H. discriminate.
Qed.

Lemma le_gt_false (x y : Q) : x <= y -> gt x y = false.
Proof. unfold gt. intros H. apply Qle_bool_iff in H. rewrite H. reflexivity. Qed.

(** Up to a zoom of 15 the generator works in seconds, with one of five
    intervals. *)
Lemma chooseInterval_seconds (frameDuration scale : Q) :
  gt scale 15 = false ->
  exists i,
    chooseInterval frameDuration scale = (i, false, 1%Z)
    /\ (i = 1 \/ i = 5 \/ i = 10 \/ i = 30 \/ i = 60).
Proof.
  intros H. pose proof (gt_false_le _ _ H) as Hle.
  unfold chooseInterval.
  rewrite (le_gt_false scale 30) by lra.
  rewrite (le_gt_false scale 20) by lra.
  rewrite H.
  destruct (gt scale 10); [eexists; split; [reflexivity | auto] |].
  destruct (gt scale 5); [eexists; split; [reflexivity | auto] |].
  destruct (gt scale 2); [eexists; split; [reflexivity | auto] |].
  destruct (gt scale 1); eexists; split; try reflexivity; auto 10.
Qed.

Lemma store_field_positive (x : Q) :
  0 < x -> falsy (Some x) = false /\ forall d, orDefault (Some x) d = x.
Proof.
  intros H. unfold falsy, orDefault.
  assert (E : Qeq_bool x 0 = false).
  { destruct (Qeq_bool x 0) eqn:E; [| reflexivity].
    apply Qeq_bool_iff in E. lra. }
  rewrite E. auto.
Qed.

(** The markers of a seconds ruler, one by one. *)
Lemma seconds_ruler (maxTime : Q) (fps : option Q) (scale : Q) :
  0 < maxTime -> gt scale 15 = false ->
  exists i ms,
    chooseInterval (1 / orDefault fps 30) scale = (i, false, 1%Z)
    /\ 0 < i
    /\ rulerMarkers (Some maxTime) fps scale = Some ms
    /\ (forall k, (k < List.length ms)%nat <->
                  inject_Z (Z.of_nat k) * i <= maxTime / 1000)
    /\ (forall k m,
           nth_error ms k = Some m ->
           time m == inject_Z (Z.of_nat k) * i
           /\ m = timeMarker maxTime i (time m)).
Proof.
  intros Hmt Hs.
  destruct (chooseInterval_seconds (1 / orDefault fps 30) scale Hs)
    as (i & Hc & Hi).
  assert (Hpos : 0 < i)
    by (destruct Hi as [-> | [-> | [-> | [-> | ->]]]]; reflexivity).
  destruct (store_field_positive maxTime Hmt) as [Hf Ho].
  unfold rulerMarkers. rewrite Hf, Ho, Hc.
  destruct (timeLoop (timeFuel (maxTime / 1000) i) maxTime (maxTime / 1000) i 0)
    as [ms |] eqn:L.
  - exists i, ms. split; [reflexivity |]. split; [exact Hpos |].
    split; [reflexivity |].
    destruct (timeLoop_spec _ _ _ _ _ _ Hpos L) as [H1 H2]. split.
    + intros k. rewrite H1. split; intros; lra.
    + intros k m Hm. destruct (H2 k m Hm) as [Ht Hm'].
      split; [rewrite Ht; lra | exact Hm'].
  - exfalso. revert L. apply timeLoop_total; [exact Hpos |].
    apply timeFuel_enough. exact Hpos.
Qed.

(** X16. Up to a zoom of 15 and for a positive duration, the ruler has a
    marker for every multiple of the interval that does not pass the end of
    the timeline, and no other: marker [k] exists exactly when
    [k * interval <= maxTime / 1000], and its time is [k * interval]
    seconds. *)
Theorem seconds_ruler_enumerates_multiples
        (maxTime : Q) (fps : option Q) (scale : Q) :
  0 < maxTime -> gt scale 15 = false ->
  exists i ms,
    fst (fst (chooseInterval (1 / orDefault fps 30) scale)) = i
    /\ rulerMarkers (Some maxTime) fps scale = Some ms
    /\ (forall k, (k < List.length ms)%nat <->
                  inject_Z (Z.of_nat k) * i <= maxTime / 1000)
    /\ (forall k m,
           nth_error ms k = Some m ->
           time m == inject_Z (Z.of_nat k) * i
           /\ timeMs m == inject_Z (Z.of_nat k) * i * 1000
           /\ frame m = None /\ isFrame m = false).
Proof.
  intros Hmt Hs.
  destruct (seconds_ruler maxTime fps scale Hmt Hs)
    as (i & ms & Hc & Hi & Hr & H1 & H2).
  exists i, ms. rewrite Hc. split; [reflexivity |]. split; [exact Hr |].
  split; [exact H1 |].
  intros k m Hm. destruct (H2 k m Hm) as [Ht Hm'].
  split; [exact Ht |]. rewrite Hm'. simpl. rewrite Ht.
  split; [reflexivity | split; reflexivity].
Qed.

Lemma seconds_ruler_enumerates_multiples_witness :
  exists i ms,
    fst (fst (chooseInterval (1 / orDefault None 30) 4)) = i
    /\ rulerMarkers (Some 25000) None 4 = Some ms
    /\ (forall k, (k < List.length ms)%nat <->
                  inject_Z (Z.of_nat k) * i <= 25000 / 1000)
    /\ (forall k m,
           nth_error ms k = Some m ->
           time m == inject_Z (Z.of_nat k) * i
           /\ timeMs m == inject_Z (Z.of_nat k) * i * 1000
           /\ frame m = None /\ isFrame m = false).
Proof.
  exact (seconds_ruler_enumerates_multiples 25000 None 4 eq_refl eq_refl).
Defined.

(** X17. On a seconds ruler every marker lies on the timeline: its position
    is between 0 and 100 percent. *)
Theorem seconds_ruler_positions_in_range
        (maxTime : Q) (fps : option Q) (scale : Q)
        (ms : list RulerMarker) (m : RulerMarker) :
  0 < maxTime -> gt scale 15 = false ->
  rulerMarkers (Some maxTime) fps scale = Some ms ->
  In m ms ->
  0 <= position m /\ position m <= 100.
Proof.
  intros Hmt Hs Hr Hin.
  destruct (seconds_ruler maxTime fps scale Hmt Hs)
    as (i & ms' & Hc & Hi & Hr' & H1 & H2).
  assert (ms' = ms) by congruence. subst ms'.
  destruct (In_nth_error _ _ Hin) as [k Hk].
  destruct (H2 k m Hk) as [Ht Hm].
  assert (Hlt : (k < List.length ms)%nat)
    by (apply nth_error_Some; congruence).
  apply H1 in Hlt. rewrite <- Ht in Hlt.
  assert (H0 : 0 <= time m).
  { rewrite Ht. apply Qmult_le_0_compat;
      [apply inject_nat_nonneg | apply Qlt_le_weak; exact Hi]. }
  rewrite Hm. simpl.
  assert (Hle : time m * 1000 <= maxTime).
  { assert (E : maxTime / 1000 * 1000 == maxTime) by (field).
    rewrite <- E. apply Qmult_le_compat_r; [exact Hlt | discriminate]. }
  assert (Hd0 : 0 <= time m * 1000 / maxTime).
  { apply Qle_shift_div_l; [exact Hmt | lra]. }
  assert (Hd1 : time m * 1000 / maxTime <= 1).
  { apply Qle_shift_div_r; [exact Hmt | lra]. }
  split; lra.
Qed.

Lemma seconds_ruler_positions_in_range_witness :
  exists ms m,
    rulerMarkers (Some 61000) (Some 24) (3 # 2) = Some ms
    /\ nth_error ms 2 = Some m
    /\ 0 <= position m /\ position m <= 100.
Proof.
  eexists. eexists. split; [vm_compute; reflexivity |].
  split; [reflexivity |].
  eapply seconds_ruler_positions_in_range
    with (maxTime := 61000) (fps := Some 24) (scale := 3 # 2).
  - reflexivity.
  - reflexivity.
  - vm_compute. reflexivity.
  - right. right. left. reflexivity.
Defined.

(** [x % y] does not depend on how the two numbers are written. *)
Lemma trunc_comp (x y : Q) : x == y -> trunc x = trunc y.
Proof.
  unfold Qeq, trunc. destruct x as [nx dx], y as [ny dy]. simpl. intros H.
  rewrite <- (Z.quot_mul_cancel_r nx (Zpos dx) (Zpos dy)) by discriminate.
  rewrite <- (Z.quot_mul_cancel_r ny (Zpos dy) (Zpos dx)) by discriminate.
  rewrite H. f_equal. apply Z.mul_comm.
Qed.

Lemma rem_comp (x x' y : Q) : x == x' -> rem x y == rem x' y.
Proof.
  intros H. unfold rem.
  assert (E : trunc (x / y) = trunc (x' / y))
    by (apply trunc_comp; rewrite H; reflexivity).
  rewrite E, H. reflexivity.
Qed.

Lemma trunc_inject_over_5 (k : Z) :
  (0 <= k)%Z -> trunc (inject_Z k / 5) = (k / 5)%Z.
Proof.
  intros Hk. unfold trunc. simpl. rewrite Z.mul_1_r.
  apply Z.quot_div_nonneg; lia.
Qed.

(** The remainder that decides [isMajor] on a seconds ruler. *)
Lemma rem_multiple (k : Z) (i : Q) :
  (0 <= k)%Z -> 0 < i ->
  rem (inject_Z k * i) (i * 5) == i * inject_Z (k mod 5).
Proof.
  intros Hk Hi. unfold rem.
  assert (E : inject_Z k * i / (i * 5) == inject_Z k / 5) by (field; lra).
  rewrite (trunc_comp _ _ E), trunc_inject_over_5 by exact Hk.
  rewrite (Z.mod_eq k 5) by discriminate.
  unfold Z.sub. rewrite inject_Z_plus, inject_Z_opp, inject_Z_mult.
  change (inject_Z 5) with 5. ring.
Qed.

(** X18. On a seconds ruler the major markers are every fifth one, starting
    with the first, and every other marker is minor. *)
Theorem seconds_ruler_major_every_fifth
        (maxTime : Q) (fps : option Q) (scale : Q)
        (ms : list RulerMarker) (k : nat) (m : RulerMarker) :
  0 < maxTime -> gt scale 15 = false ->
  rulerMarkers (Some maxTime) fps scale = Some ms ->
  nth_error ms k = Some m ->
  isMajor m = (Z.of_nat k mod 5 =? 0)%Z /\ isMinor m = negb (isMajor m).
Proof.
  intros Hmt Hs Hr Hk.
  destruct (seconds_ruler maxTime fps scale Hmt Hs)
    as (i & ms' & Hc & Hi & Hr' & H1 & H2).
  assert (ms' = ms) by congruence. subst ms'.
  destruct (H2 k m Hk) as [Ht Hm].
  split; [| rewrite Hm; reflexivity].
  rewrite Hm. cbn [isMajor timeMarker].
  assert (E : rem (time m) (i * 5) == i * inject_Z (Z.of_nat k mod 5)).
  { rewrite (rem_comp _ _ _ Ht). apply rem_multiple; [lia | exact Hi]. }
  destruct (Z.eqb_spec (Z.of_nat k mod 5) 0) as [Hz | Hz].
  - apply Qeq_bool_iff. rewrite E, Hz. change (inject_Z 0) with 0. ring.
  - destruct (Qeq_bool (rem (time m) (i * 5)) 0) eqn:B; [| reflexivity].
    exfalso. apply Qeq_bool_iff in B. rewrite E in B.
    apply Qmult_integral in B. destruct B as [B | B]; [lra |].
    apply Hz. change 0 with (inject_Z 0) in B.
    exact (proj1 (inject_Z_injective _ _) B).
Qed.

Lemma seconds_ruler_major_every_fifth_witness :
  exists ms m,
    rulerMarkers (Some 61000) (Some 24) 7 = Some ms
    /\ nth_error ms 5 = Some m
    /\ isMajor m = true /\ isMinor m = negb (isMajor m).
Proof.
  eexists. eexists. split; [vm_compute; reflexivity |].
  split; [reflexivity |].
  eapply seconds_ruler_major_every_fifth
    with (maxTime := 61000) (fps := Some 24) (scale := 7) (k := 5%nat).
  - reflexivity.
  - reflexivity.
  - vm_compute. reflexivity.
  - reflexivity.
Defined.

(** X19. Zooming in never makes a seconds ruler coarser: of two zoom levels
    up to 15, the larger has the smaller or the same interval. *)
Theorem seconds_interval_antitone (frameDuration s1 s2 : Q) :
  s1 <= s2 -> gt s2 15 = false ->
  fst (fst (chooseInterval frameDuration s2))
  <= fst (fst (chooseInterval frameDuration s1)).
Proof.
  intros Hle H2. pose proof (gt_false_le _ _ H2) as Hs2.
  assert (H1 : gt s1 15 = false) by (apply le_gt_false; lra).
  unfold chooseInterval.
  rewrite (le_gt_false s1 30), (le_gt_false s1 20), H1 by lra.
  rewrite (le_gt_false s2 30), (le_gt_false s2 20), H2 by lra.
  destruct (gt s1 10) eqn:A1; destruct (gt s1 5) eqn:A2;
    destruct (gt s1 2) eqn:A3; destruct (gt s1 1) eqn:A4;
    destruct (gt s2 10) eqn:B1; destruct (gt s2 5) eqn:B2;
    destruct (gt s2 2) eqn:B3; destruct (gt s2 1) eqn:B4;
    cbn [fst];
    try (unfold Qle; simpl; lia);
    exfalso;
    repeat match goal with
           | H : gt _ _ = true |- _ => apply gt_true_lt in H
           | H : gt _ _ = false |- _ => apply gt_false_le in H
           end; lra.
Qed.

Lemma seconds_interval_antitone_witness :
  fst (fst (chooseInterval (1 # 30) 12))
  <= fst (fst (chooseInterval (1 # 30) (3 # 2))).
Proof.
  apply (seconds_interval_antitone (1 # 30) (3 # 2) 12).
  - unfold Qle. simpl. lia.
  - reflexivity.
Defined.


(** Above a zoom of 15 the generator works in frames, every one, every
    fifth or every tenth. *)
Lemma chooseInterval_frames (frameDuration scale : Q) :
  gt scale 15 = true ->
  exists i,
    chooseInterval frameDuration scale
    = (i, true, if gt scale 30 then 1%Z else if gt scale 20 then 5%Z else 10%Z).
Proof.
  intros H. unfold chooseInterval.
  destruct (gt scale 30); [eexists; reflexivity |].
  destruct (gt scale 20); [eexists; reflexivity |].
  rewrite H. eexists. reflexivity.
Qed.





End RulerMoreFacts.

(** ** Ruler labels *)

Section RulerLabelFacts.

Import Ruler RulerLabel.
Local Open Scope Q_scope.

Lemma timeLoop_frames (fuel : nat) :
  forall maxTime maxTimeSeconds intervalSeconds t ms m,
    timeLoop fuel maxTime maxTimeSeconds intervalSeconds t = Some ms ->
    In m ms -> frame m = None.
Proof.
  induction fuel as [| fuel IH]; intros mt maxS i t ms m H Hin;
    [discriminate |].
  simpl in H. destruct (Qle_bool t maxS).
  - destruct (timeLoop fuel mt maxS i (t + i)) as [ms' |] eqn:L;
      [| discriminate]. simpl in H. inversion H; subst ms; clear H.
    destruct Hin as [<- | Hin]; [reflexivity |].
    eapply IH; eassumption.
  - inversion H; subst ms. contradiction.
Qed.

Lemma frameLoop_frames (fuel : nat) :
  forall maxTime fps frameDuration maxFrames frameInterval f ms m,
    frameLoop fuel maxTime fps frameDuration maxFrames frameInterval f
    = Some ms ->
    In m ms -> exists n, frame m = Some n.
Proof.
  induction fuel as [| fuel IH]; intros mt fps fd mf fi f ms m H Hin;
    [discriminate |].
  simpl in H. destruct (f <=? mf)%Z.
  - destruct (frameLoop fuel mt fps fd mf fi (f + fi)) as [ms' |] eqn:L;
      [| discriminate]. simpl in H. inversion H; subst ms; clear H.
    destruct Hin as [<- | Hin]; [eexists; reflexivity |].
    eapply IH; eassumption.
  - inversion H; subst ms. contradiction.
Qed.

(** X22. The label of a marker the generator produced has one of two
    forms, by the zoom alone: minutes, seconds and frame number above a zoom
    of 15, minutes and seconds up to it. The form with hundredths of
    [formatTime] is never used for such a marker. *)
Theorem generated_labels_by_zoom
        (maxTime fps : option Q) (scale : Q)
        (ms : list RulerMarker) (m : RulerMarker) :
  rulerMarkers maxTime fps scale = Some ms -> In m ms ->
  let mins := toString (Qfloor (time m / 60)) in
  let secs := padStart2 (toString (Qfloor (rem (time m) 60))) in
  (gt scale 15 = true
   /\ exists n, frame m = Some n
                /\ formatTime scale (time m) (frame m)
                   = mins ++ ":" ++ secs ++ ":" ++ padStart2 (toString n))
  \/ (gt scale 15 = false
      /\ frame m = None
      /\ formatTime scale (time m) (frame m) = mins ++ ":" ++ secs).
Proof.
  intros Hr Hin mins secs. unfold rulerMarkers in Hr.
  destruct (falsy maxTime); [inversion Hr; subst ms; contradiction |].
  destruct (gt scale 15) eqn:Hs.
  - left. split; [reflexivity |].
    destruct (chooseInterval_frames (1 / orDefault fps 30) scale Hs) as [i Hc].
    rewrite Hc in Hr.
    destruct (frameLoop_frames _ _ _ _ _ _ _ _ m Hr Hin) as [n Hn].
    exists n. split; [exact Hn |].
    unfold formatTime. rewrite Hn, Hs. reflexivity.
  - right. split; [reflexivity |].
    destruct (chooseInterval_seconds (1 / orDefault fps 30) scale Hs)
      as (i & Hc & _).
    rewrite Hc in Hr.
    pose proof (timeLoop_frames _ _ _ _ _ _ m Hr Hin) as Hn.
    split; [exact Hn |].
    unfold formatTime. rewrite Hn.
    rewrite (le_gt_false scale 20)
      by (pose proof (gt_false_le _ _ Hs); lra).
    reflexivity.
Qed.

Lemma generated_labels_by_zoom_witness :
  exists ms m,
    rulerMarkers (Some 120000) (Some 30) 12 = Some ms
    /\ nth_error ms 75 = Some m
    /\ formatTime 12 (time m) (frame m) = "1:15".
Proof.
  eexists. eexists. split; [vm_compute; reflexivity |].
  split; [reflexivity |].
  edestruct (generated_labels_by_zoom (Some 120000) (Some 30) 12)
    as [[Hs _] | [_ [_ Hf]]].
  - vm_compute. reflexivity.
  - eapply nth_error_In with (n := 75%nat). reflexivity.
  - discriminate Hs.
  - etransitivity; [exact Hf | vm_compute; reflexivity].
Defined.

Lemma Qfloor_over_60 (x : Q) : Qfloor (x / 60) = (Qfloor x / 60)%Z.
Proof.
  destruct x as [n d]. unfold Qfloor, Qdiv, Qmult, Qinv. simpl.
  rewrite Z.mul_1_r, Pos2Z.inj_mul, Z.div_div; [reflexivity | lia | lia].
Qed.

Lemma trunc_nonneg (x : Q) : 0 <= x -> trunc x = Qfloor x.
Proof.
  destruct x as [n d]. unfold Qle, trunc, Qfloor. simpl. intros H.
  apply Z.quot_div_nonneg; lia.
Qed.

Lemma Qfloor_minus_inject (x : Q) (z : Z) :
  Qfloor (x - inject_Z z) = (Qfloor x - z)%Z.
Proof.
  destruct x as [n d]. unfold Qfloor, Qminus, Qplus, Qopp, inject_Z. simpl.
  rewrite Z.mul_1_r, Pos.mul_1_r.
  rewrite Z.div_add by lia. lia.
Qed.

Lemma padStart2_two_digits (z : Z) :
  (0 <= z < 100)%Z -> String.length (padStart2 (toString z)) = 2%nat.
Proof.
  intros Hz.
  assert (E : z = Z.of_nat (Z.to_nat z)) by lia.
  assert (Hn : (Z.to_nat z < 100)%nat) by lia.
  rewrite E. generalize dependent (Z.to_nat z). clear. intros n _ Hn.
  do 100 (destruct n as [| n]; [reflexivity |]). lia.
Qed.

(** X23. For a time that is not negative, the label of minutes and seconds
    shows the whole seconds of the time, split at 60: the minutes are
    [floor seconds / 60], and the seconds [floor seconds mod 60], always in
    two digits. *)
Theorem label_splits_whole_seconds (scale seconds : Q) :
  0 <= seconds -> gt scale 20 = false ->
  formatTime scale seconds None
  = toString (Qfloor seconds / 60) ++ ":"
    ++ padStart2 (toString (Qfloor seconds mod 60))
  /\ String.length (padStart2 (toString (Qfloor seconds mod 60))) = 2%nat.
Proof.
  intros H0 Hs. split.
  - unfold formatTime. rewrite Hs.
    rewrite Qfloor_over_60.
    assert (E : Qfloor (rem seconds 60) = (Qfloor seconds mod 60)%Z).
    { unfold rem.
      assert (H60 : 0 <= seconds / 60)
        by (apply Qle_shift_div_l; [reflexivity | lra]).
      rewrite (trunc_nonneg _ H60), Qfloor_over_60.
      assert (Ei : 60 * inject_Z (Qfloor seconds / 60)
                   == inject_Z (60 * (Qfloor seconds / 60))).
      { rewrite inject_Z_mult. reflexivity. }
      assert (Ex : seconds - 60 * inject_Z (Qfloor seconds / 60)
                   == seconds - inject_Z (60 * (Qfloor seconds / 60))).
      { rewrite Ei. reflexivity. }
      rewrite (Qfloor_comp _ _ Ex), Qfloor_minus_inject.
      rewrite (Z.mod_eq (Qfloor seconds) 60) by discriminate. reflexivity. }
    rewrite E. reflexivity.
  - apply padStart2_two_digits.
    pose proof (Z.mod_pos_bound (Qfloor seconds) 60). lia.
Qed.

Lemma label_splits_whole_seconds_witness :
  formatTime 12 (751 # 10) None = "1:15".
Proof.
  assert (H0 : 0 <= 751 # 10) by (unfold Qle; simpl; lia).
  rewrite (proj1 (label_splits_whole_seconds 12 (751 # 10) H0 eq_refl)).
  vm_compute. reflexivity.
Defined.

End RulerLabelFacts.

(** ** Canvas size *)

Section CanvasFacts.

Import Canvas.
Local Open Scope Z_scope.

Lemma gcdFuel_total (fuel : nat) :
  forall a b, (Z.abs_nat b < fuel)%nat -> gcdFuel fuel a b <> None.
Proof.
  induction fuel as [| fuel IH]; intros a b Hb; [lia |].
  simpl. destruct (Z.eqb_spec b 0) as [-> | Hnz]; [discriminate |].
  apply IH. pose proof (Z.rem_bound_abs a b Hnz). lia.
Qed.

Lemma gcdFuel_nonneg (fuel : nat) :
  forall a b g, 0 <= a -> 0 <= b ->
                gcdFuel fuel a b = Some g -> g = Z.gcd a b.
Proof.
  induction fuel as [| fuel IH]; intros a b g Ha Hb H; [discriminate |].
  simpl in H. destruct (Z.eqb_spec b 0) as [-> | Hnz].
  - inversion H; subst g. rewrite Z.gcd_0_r. lia.
  - assert (Hrem : Z.rem a b = a mod b) by (apply Z.rem_mod_nonneg; lia).
    rewrite Hrem in H.
    pose proof (Z.mod_pos_bound a b ltac:(lia)) as Hm.
    rewrite (IH b (a mod b) g Hb ltac:(lia) H).
    rewrite (Z.gcd_comm b (a mod b)), Z.gcd_mod by exact Hnz.
    apply Z.gcd_comm.
Qed.

(** X24. [gcd] returns for every pair of integers, and for a size with
    positive sides [handleCustomSizeChange] hands the store the size in
    lowest terms: two whole coprime numbers in the proportion of the
    sides. *)
Theorem custom_size_in_lowest_terms (w h : Z) :
  0 < w -> 0 < h ->
  exists aw ah,
    handleCustomSizeChange true (mkSize w h)
    = Some (Some {| aspectWidth := Some aw; aspectHeight := Some ah |})
    /\ (aw == inject_Z (w / Z.gcd w h))%Q
    /\ (ah == inject_Z (h / Z.gcd w h))%Q
    /\ Z.gcd (w / Z.gcd w h) (h / Z.gcd w h) = 1
    /\ (w / Z.gcd w h) * h = (h / Z.gcd w h) * w.
Proof.
  intros Hw Hh. unfold handleCustomSizeChange, gcd. cbn [width height].
  destruct (gcdFuel (S (Z.abs_nat h)) w h) as [g |] eqn:E;
    [| exfalso; revert E; apply gcdFuel_total; lia].
  apply gcdFuel_nonneg in E; [| lia | lia]. subst g.
  set (g := Z.gcd w h).
  assert (Hg : 0 < g).
  { pose proof (Z.gcd_nonneg w h). fold g in H.
    assert (g <> 0) by (unfold g; intros Hz; apply Z.gcd_eq_0_l in Hz; lia).
    lia. }
  destruct (Z.gcd_divide_l w h) as [w' Hw'].
  destruct (Z.gcd_divide_r w h) as [h' Hh'].
  fold g in Hw', Hh'.
  assert (Ew : w / g = w') by (rewrite Hw'; apply Z.div_mul; lia).
  assert (Eh : h / g = h') by (rewrite Hh'; apply Z.div_mul; lia).
  unfold divide. destruct (Z.eqb_spec g 0) as [Hz | _]; [lia |].
  eexists. eexists. split; [reflexivity |].
  assert (Hq : ~ (inject_Z g == 0)%Q).
  { change 0%Q with (inject_Z 0). rewrite inject_Z_injective. lia. }
  split; [| split; [| split]].
  - rewrite Ew. rewrite Hw' at 1. rewrite inject_Z_mult. field. exact Hq.
  - rewrite Eh. rewrite Hh' at 1. rewrite inject_Z_mult. field. exact Hq.
  - apply Z.gcd_div_gcd; [lia | reflexivity].
  - rewrite Ew, Eh. clear Ew Eh Hq. clearbody g. subst w h. ring.
Qed.

Lemma custom_size_in_lowest_terms_witness :
  exists aw ah,
    handleCustomSizeChange true (mkSize 1920 1080)
    = Some (Some {| aspectWidth := Some aw; aspectHeight := Some ah |})
    /\ (aw == inject_Z 16)%Q /\ (ah == inject_Z 9)%Q
    /\ Z.gcd 16 9 = 1 /\ 16 * 1080 = 9 * 1920.
Proof.
  exact (custom_size_in_lowest_terms 1920 1080 eq_refl eq_refl).
Defined.

End CanvasFacts.

(** ** Alignment lines *)

Section AlignmentFacts.

Import Alignment.

Lemma replaceHyphen_first (a b : string) :
  hasHyphen a = false ->
  replaceHyphen (a ++ "-" ++ b) = a ++ " to " ++ b.
Proof.
  change ("-" ++ b) with (String "-"%char b).
  induction a as [| c a IH]; cbn [hasHyphen replaceHyphen append]; intros H.
  - reflexivity.
  - apply orb_false_iff in H. destruct H as [Hc Ha].
    rewrite Hc, (IH Ha). reflexivity.
Qed.

(** X25. The tooltip of a guide replaces the first hyphen of its type by
    [ to ] and leaves every later hyphen in place. *)
Theorem title_replaces_first_hyphen_only
        (a b : string) (position : Q) (guide : bool) :
  hasHyphen a = false ->
  title {| Ghost.linePosition := position; Ghost.lineType := a ++ "-" ++ b;
           Ghost.snapGuide := guide |}
  = "Snap: " ++ a ++ " to " ++ b.
Proof.
  intros H. unfold title. cbn [Ghost.lineType].
  rewrite (replaceHyphen_first a b H).
  destruct a; reflexivity.
Qed.

Lemma title_replaces_first_hyphen_only_witness :
  title {| Ghost.linePosition := 25%Q; Ghost.lineType := "start-to-start";
           Ghost.snapGuide := true |}
  = "Snap: start to to-start".
Proof.
  exact (title_replaces_first_hyphen_only "start" "to-start" 25%Q true eq_refl).
Defined.

End AlignmentFacts.

(** ** Ghosts on screen and the file drag over the grid *)

Section GhostMoreFacts.

Import Ghost GhostRender.
Local Open Scope Q_scope.

(** X26. When the pointer leaves the grid during a drag that is neither a
    file nor a gallery drag, no ghost of a moved element or of a selection
    stays on screen: what is rendered afterwards is the resize ghost, as it
    was before. *)
Theorem leaving_grid_hides_drag_ghosts
        (gridRect : Rect) (e : PointerEvent) (g : GhostState) :
  isOverGrid gridRect e = false ->
  isFileDragging g = false -> isGalleryDragging g = false ->
  renderedGhosts (handleGlobalMouseMove (Some gridRect) e g)
  = resizeGhosts g.
Proof.
  intros Hout Hf Hg. unfold handleGlobalMouseMove, leaveGrid.
  rewrite Hout, Hf, Hg. cbv [negb orb].
  unfold renderedGhosts, dragGhosts, resizeGhosts, multiGhosts,
    galleryGhosts, fileGhosts, whenSet.
  destruct (isDragging g) eqn:D; destruct (isMultiDragging g) eqn:M;
    cbn; rewrite ?D, ?M, ?Hf, ?Hg; cbn;
    destruct (ghostElement g), (resizeGhostElement g), (isResizing g),
      (galleryGhostElement g), (fileGhostElement g);
    cbn; rewrite ?D, ?M, ?Hf, ?Hg; cbn; rewrite ?app_nil_r; reflexivity.
Qed.

Lemma leaving_grid_hides_drag_ghosts_witness :
  let ghost := {| left := 10; width := 5; row := 2; elementType := "video";
                  canPush := true; isIncompatible := false |} in
  let g := {| isDragging := true; ghostElement := Some ghost;
              isIncompatibleRow := true;
              isResizing := false; resizeGhostElement := None;
              isMultiDragging := true; multiGhostElements := [ghost; ghost];
              isGalleryDragging := false; galleryGhostElement := None;
              isFileDragging := false; fileGhostElement := None;
              alignmentLines := []; ghostMarkerPosition := None |} in
  renderedGhosts
    (handleGlobalMouseMove
       (Some {| r_left := 0; r_right := 800; r_top := 100; r_bottom := 300 |})
       {| clientX := 400; clientY := 50; hasFiles := false;
          overTimelineRow := false; itemType := None |} g)
  = [].
Proof.
  intros ghost g.
  exact (leaving_grid_hides_drag_ghosts
           {| r_left := 0; r_right := 800; r_top := 100; r_bottom := 300 |}
           {| clientX := 400; clientY := 50; hasFiles := false;
              overTimelineRow := false; itemType := None |} g
           eq_refl eq_refl eq_refl).
Defined.

Lemma targetRowOf_listed (rowContainers : list (Rect * Z)) (y : Q) :
  targetRowOf rowContainers y = 0%Z
  \/ In (targetRowOf rowContainers y) (map snd rowContainers).
Proof.
  induction rowContainers as [| [rect index] rest IH]; simpl; [left; reflexivity |].
  destruct (Qle_bool (r_top rect) y && Qle_bool y (r_bottom rect)).
  - right. left. reflexivity.
  - destruct IH as [IH | IH]; [left; exact IH | right; right; exact IH].
Qed.

(** X27. A file dragged over the grid, outside the rows' own handlers,
    leaves the ghost state alone and asks the store for one update of the
    file ghost: at a time between 0 and [maxTime], on row 0 or on the row
    of one of the rendered containers. *)
Theorem file_drag_update_in_range
        (gridRect : Rect) (rowContainers : list (Rect * Z))
        (overlays : list Compat.overlay) (maxTime : Q)
        (e : PointerEvent) (g : GhostState) :
  r_left gridRect < r_right gridRect -> 0 <= maxTime ->
  isOverGrid gridRect e = true ->
  isFileDragging g = true -> hasFiles e = true -> overTimelineRow e = false ->
  exists u,
    handleGlobalDragOver (Some gridRect) rowContainers overlays maxTime e g
    = (g, Some u)
    /\ 0 <= newPosition u /\ newPosition u <= maxTime
    /\ (targetRow u = 0%Z \/ In (targetRow u) (map snd rowContainers))
    /\ incompatible u
       = Compat.isIncompatible overlays (targetRow u) (itemType e).
Proof.
  intros Hw Hmt Hin Hf He Hr. unfold handleGlobalDragOver.
  rewrite Hin, Hf, He, Hr. cbv [negb andb].
  eexists. split; [reflexivity |]. cbn [newPosition targetRow incompatible].
  unfold isOverGrid in Hin.
  apply andb_true_iff in Hin. destruct Hin as [Hin _].
  apply andb_true_iff in Hin. destruct Hin as [Hin _].
  apply andb_true_iff in Hin. destruct Hin as [Hl Hrt].
  apply Qle_bool_iff in Hl. apply Qle_bool_iff in Hrt.
  set (wd := r_right gridRect - r_left gridRect).
  set (x := clientX e - r_left gridRect).
  assert (Hwd : 0 < wd) by (unfold wd; lra).
  assert (Hx0 : 0 <= x) by (unfold x; lra).
  assert (Hx1 : x <= wd) by (unfold x, wd; lra).
  assert (Hd0 : 0 <= x / wd) by (apply Qle_shift_div_l; [exact Hwd | lra]).
  assert (Hd1 : x / wd <= 1) by (apply Qle_shift_div_r; [exact Hwd | lra]).
  split; [apply Qmult_le_0_compat; assumption |].
  split.
  - assert (E : maxTime == 1 * maxTime) by ring.
    rewrite E at 2. apply Qmult_le_compat_r; assumption.
  - split; [apply targetRowOf_listed | reflexivity].
Qed.

Lemma file_drag_update_in_range_witness :
  let g := {| isDragging := false; ghostElement := None;
              isIncompatibleRow := false;
              isResizing := false; resizeGhostElement := None;
              isMultiDragging := false; multiGhostElements := [];
              isGalleryDragging := false; galleryGhostElement := None;
              isFileDragging := true; fileGhostElement := None;
              alignmentLines := []; ghostMarkerPosition := None |} in
  let rows :=
    [({| r_left := 100; r_right := 900; r_top := 0; r_bottom := 60 |}, 0%Z);
     ({| r_left := 100; r_right := 900; r_top := 60; r_bottom := 120 |}, 1%Z)] in
  let e := {| clientX := 300; clientY := 90; hasFiles := true;
              overTimelineRow := false; itemType := Some "video/mp4" |} in
  exists u,
    handleGlobalDragOver
      (Some {| r_left := 100; r_right := 900; r_top := 0; r_bottom := 120 |})
      rows [Compat.mkOverlay 1 "audio"] 60000 e g
    = (g, Some u)
    /\ 0 <= newPosition u /\ newPosition u <= 60000
    /\ (targetRow u = 0%Z \/ In (targetRow u) (map snd rows))
    /\ incompatible u
       = Compat.isIncompatible [Compat.mkOverlay 1 "audio"] (targetRow u)
           (itemType e).
Proof.
  intros g rows e.
  apply (file_drag_update_in_range
           {| r_left := 100; r_right := 900; r_top := 0; r_bottom := 120 |}
           rows [Compat.mkOverlay 1 "audio"] 60000 e g).
  - reflexivity.
  - discriminate.
  - reflexivity.
  - reflexivity.
  - reflexivity.
  - reflexivity.
Defined.

End GhostMoreFacts.

(** ** Upload hook *)

Section UploadFacts.

Import UploadHook.
Local Open Scope Q_scope.


Lemma round_percentage (x : Q) : 0 <= x -> x <= 100 -> (0 <= round x <= 100)%Z.
Proof.
  intros H0 H1. unfold round. split.
  - change 0%Z with (Qfloor 0). apply Qfloor_resp_le. lra.
  - change 100%Z with (Qfloor (100 + (1 # 2))). apply Qfloor_resp_le. lra.
Qed.

(** X29. When every progress event reports a loaded amount between 0 and
    its positive total, every percentage [upload] hands to [onProgress] is a
    whole number between 0 and 100; and when the call returns and
    [onProgress] is a function, the last one is 100. *)
Theorem progress_reports_are_percentages
        (e : env) (req : request) (events : list progressEvent)
        (net : network) (st : hookState) :
  (forall ev, In ev events ->
              exists t, total ev = Some t /\ 0 < t
                        /\ 0 <= loaded ev /\ loaded ev <= t) ->
  let r := upload e req events net st in
  (forall p, In p (reports r) -> (0 <= p <= 100)%Z)
  /\ (forall d, outcome r = Returned d -> onProgress req = true ->
                exists before, reports r = (before ++ [100%Z])%list).
Proof.
  intros Hev.
  assert (Hd : forall p, In p (flat_map (percentage (onProgress req)) events)
                         -> (0 <= p <= 100)%Z).
  { intros p Hp. apply in_flat_map in Hp. destruct Hp as (ev & Hin & Hp).
    destruct (Hev ev Hin) as (t & Ht & Hpos & Hl0 & Hl1).
    unfold percentage in Hp. rewrite Ht in Hp.
    destruct (Qeq_bool t 0); [contradiction |].
    destruct (onProgress req); [| contradiction].
    destruct Hp as [<- | []].
    apply round_percentage.
    - apply Qle_shift_div_l; [exact Hpos | lra].
    - apply Qle_shift_div_r; [exact Hpos | lra]. }
  unfold upload.
  destruct (isDev e && (negb (hasValidBackend (orEmpty (backendUrl e)))
                        || negb (present (token e)))).
  - cbn. split.
    + intros p Hp. destruct (onProgress req); [| contradiction].
      destruct Hp as [<- | []]. lia.
    + intros d _ Hf. rewrite Hf. exists []. reflexivity.
  - destruct net as [data | err]; cbn; split.
    + intros p Hp. apply in_app_or in Hp. destruct Hp as [Hp | Hp].
      * apply Hd. exact Hp.
      * destruct (onProgress req); [| contradiction].
        destruct Hp as [<- | []]. lia.
    + intros d _ Hf. rewrite Hf. eexists. reflexivity.
    + exact Hd.
    + intros d H. discriminate H.
Qed.

Lemma progress_reports_are_percentages_witness :
  reports
    (upload {| backendUrl := Some "https://api.example/"; nodeEnv := Some "production";
               token := Some "t0k3n" |}
       {| file := None; onProgress := true; endpoint := None |}
       [{| loaded := 1; total := Some 3 |}; {| loaded := 5; total := Some 6 |}]
       (Responded "ok")
       {| isUploading := false; lastError := None; controller := false |})
  = [33%Z; 83%Z; 100%Z]
  /\ forall p, In p [33%Z; 83%Z; 100%Z] -> (0 <= p <= 100)%Z.
Proof.
  split; [vm_compute; reflexivity |].
  refine (proj1 (progress_reports_are_percentages
                   {| backendUrl := Some "https://api.example/";
                      nodeEnv := Some "production"; token := Some "t0k3n" |}
                   {| file := None; onProgress := true; endpoint := None |}
                   [{| loaded := 1; total := Some 3 |};
                    {| loaded := 5; total := Some 6 |}]
                   (Responded "ok")
                   {| isUploading := false; lastError := None;
                      controller := false |} _)).
  intros ev [<- | [<- | []]]; eexists; (split; [reflexivity |]);
    repeat split; unfold Qle, Qlt; simpl; lia.
Defined.

End UploadFacts.
